(** * rank-check: rank movement and snapshot history of the NFT rank server

    A shallow embedding of the update cycle of the repository's server
    variants and of their metadata handlers:

    - [Index]     : index.js (last-cycle rankings, sticky colours, in-memory
                    cache, guarded loop);
    - [RedGreen]  : working_redGreen.js (last-cycle rankings, sticky colours);
    - [Check24]   : 24hr_check.js (rolling history of snapshots);
    - [Part001]   : the stand-alone [getRankMovement] helper.

    The upstream fetch ([fetchWithRetry], the two texts of
    [fetchTopCollections] and the route [/top-collections]) is modelled over a
    network oracle that tells what each call of [fetch] gets.

    JavaScript values are modelled as follows.  Ranks and epoch seconds are
    integers ([Z]).  A string is the sequence of its UTF-16 code units, one
    character of the model for each unit; only units below 256 can be written,
    so that lengths and cuts count what JavaScript counts.  A JSON object used
    as a dictionary is a [gmap] holding its own properties; a read ([js_get])
    also finds what every object inherits from [Object.prototype], and a write
    ([js_set]) goes through the inherited setter of [__proto__].  An array is a
    [list]; reading past its end gives [undefined], here [None].  A file is
    [None] when it is missing or does not parse, and otherwise holds the value
    [JSON.parse] gives back.  A thrown [TypeError] ends the asynchronous cycle
    where it is raised, with the effects made so far. *)

From Stdlib Require Import ZArith Lia.
From Stdlib Require QArith.
From stdpp Require Import base strings list gmap pretty sorting.

Open Scope Z_scope.

(** ** JavaScript values *)

Definition decimal : Type := QArith_base.Q.
Definition dzero : decimal := QArith_base.Qmake 0 1.

(** [x || d] on a number that may be undefined: [undefined] and [0] are falsy. *)
Definition or_num (x : option Z) (d : Z) : Z :=
  match x with
  | Some v => if v =? 0 then d else v
  | None => d
  end.

(** [x || d] on a string that may be undefined: [undefined] and the empty
    string are falsy. *)
Definition or_str (x : option string) (d : string) : string :=
  match x with
  | Some EmptyString => d
  | Some s => s
  | None => d
  end.

(** [x || 0] on a decimal that may be undefined. *)
Definition or_dec (x : option decimal) : decimal :=
  match x with
  | Some v => v
  | None => dzero
  end.

(** [!x] on a string that may be undefined. *)
Definition falsy_str (x : option string) : bool :=
  match x with
  | Some EmptyString => true
  | Some _ => false
  | None => true
  end.

(** The string a value that may be undefined is coerced to, as a property key
    in [obj[collection.id]] and inside a template literal. *)
Definition prop_key (x : option string) : string :=
  match x with
  | Some s => s
  | None => "undefined"
  end.

(** A collection record of the upstream API, with the fields the server reads:
    [id], [name], [floorAsk?.price?.amount?.decimal] and [volume?.['1day']]. *)
Record Collection := mkCollection {
  id : option string;
  name : option string;
  floorPrice : option decimal;
  volume : option decimal
}.

Inductive Movement := up | down | same.

(** What [generateImage] draws: the rank, the name cut to twenty code units,
    the two amounts and the colour that selects [<colour>_spiky.png]. *)
Record Image := mkImage {
  img_rank : Z;
  img_name : string;
  img_floor : decimal;
  img_volume : decimal;
  img_color : string
}.

(** How an [updateRankings] call ends: it ran to its last statement, it
    returned early on an empty fetch, or a [TypeError] or a failed image load
    rejected its promise. *)
Inductive Cycle (S : Type) :=
  | Completed (s : S)
  | Aborted (s : S)
  | Crashed (s : S).
Arguments Completed {S} s.
Arguments Aborted {S} s.
Arguments Crashed {S} s.

(** The comparison of lines 145-154 of index.js (the same text is in
    working_redGreen.js 103-113): [previousRank] is the stored rank or 101. *)
Definition rankMovement (currentRank : Z) (stored : option Z) : Movement :=
  let previousRank := or_num stored 101 in
  if currentRank <? previousRank then up
  else if previousRank <? currentRank then down
  else same.

(** The colour rule of index.js 156 and working_redGreen.js 115-123. *)
Definition resolveColor (movement : Movement) (previousColor : option string) : string :=
  match movement with
  | up => "green"
  | down => "red"
  | same => or_str previousColor "red"
  end.

(** ** Objects used as dictionaries *)

(** The names every object inherits from [Object.prototype]. *)
Definition object_prototype_names : list string :=
  ["constructor"; "__defineGetter__"; "__defineSetter__"; "hasOwnProperty";
   "__lookupGetter__"; "__lookupSetter__"; "isPrototypeOf";
   "propertyIsEnumerable"; "toString"; "valueOf"; "__proto__"; "toLocaleString"].

Definition inherited (key : string) : bool :=
  bool_decide (key ∈ object_prototype_names).

(** What [obj[key]] finds: an own property, a function or object inherited
    from [Object.prototype], or nothing ([undefined]). *)
Inductive Read (V : Type) :=
  | Own (v : V)
  | Inherited
  | Absent.
Arguments Own {V} v.
Arguments Inherited {V}.
Arguments Absent {V}.

Definition js_get {V : Type} (obj : gmap string V) (key : string) : Read V :=
  match obj !! key with
  | Some v => Own v
  | None => if inherited key then Inherited else Absent
  end.

(** [obj[key] = v] on an object made by [{}], for a number or a string [v]:
    under the key [__proto__] the inherited setter ignores such a value. *)
Definition js_set {V : Type} (key : string) (v : V) (obj : gmap string V)
    : gmap string V :=
  if bool_decide (key = "__proto__") then obj else <[key := v]> obj.

(** [obj[key] = f] for an inherited function or object [f], as
    [JSON.stringify] will see it: a property that holds a function is left
    out, and under [__proto__] the setter takes [Object.prototype], which the
    object has already. *)
Definition js_set_foreign {V : Type} (key : string) (obj : gmap string V)
    : gmap string V :=
  delete key obj.

(** [previousRankings[key] || 101] compared with the current rank (index.js
    145-154): an inherited function or object is truthy and compares neither
    below nor above a number, which leaves 'same'. *)
Definition movementAgainst (previousRankings : gmap string Z) (key : string)
    (currentRank : Z) : Movement :=
  match js_get previousRankings key with
  | Own previousRank => rankMovement currentRank (Some previousRank)
  | Absent => rankMovement currentRank None
  | Inherited => same
  end.

(** The colour of index.js 156 read from [previousColors[key]]; [None] is a
    colour that is not a string, the inherited function or object that
    [previousColors[key] || 'red'] gives on 'same'. *)
Definition colorAgainst (movement : Movement) (previousColors : gmap string string)
    (key : string) : option string :=
  match js_get previousColors key with
  | Own color => Some (resolveColor movement (Some color))
  | Absent => Some (resolveColor movement None)
  | Inherited =>
      match movement with
      | same => None
      | _ => Some (resolveColor movement None)
      end
  end.

Module Part001.

(** [getRankMovement(currentRank, collectionId)]: it reads and parses
    previous_rankings.json without a guard, so it throws ([None]) when the
    file is missing or unreadable.  An inherited function or object passes
    both comparisons and falls through to 'same'. *)
Definition getRankMovement (file : option (gmap string Z))
    (currentRank : Z) (collectionId : string) : option Movement :=
  match file with
  | None => None
  | Some previousRankings =>
      let compare previousRank :=
        if currentRank <? previousRank then Some up
        else if previousRank <? currentRank then Some down
        else Some same in
      match js_get previousRankings collectionId with
      | Own stored => compare (or_num (Some stored) 101)
      | Absent => compare 101
      | Inherited => Some same
      end
  end.

End Part001.

(** The reference rank of the specification: a recorded rank, or the sentinel
    101 when none is recorded. *)
Definition referenceRank (stored : option Z) : Z :=
  match stored with
  | Some r => r
  | None => 101
  end.

Definition valid_reference (stored : option Z) : Prop :=
  match stored with
  | Some r => 1 <= r <= 101
  | None => True
  end.

(** ** Loops that may throw *)

(** One iteration either goes on to the next one or throws, keeping the
    effects made so far. *)
Inductive Step (A : Type) :=
  | Next (a : A)
  | Throw (a : A).
Arguments Next {A} a.
Arguments Throw {A} a.

(** [for (let i = start; i < start + count; i++) body]. *)
Fixpoint for_range {A : Type} (body : nat -> A -> Step A)
    (start count : nat) (a : A) : Step A :=
  match count with
  | O => Next a
  | S count' =>
      match body start a with
      | Next a' => for_range body (S start) count' a'
      | Throw a' => Throw a'
      end
  end.

(** ** Image rendering *)

(** [generateImage] of the colour variants.  [assets c] tells whether
    [<c>_spiky.png] loads; [None] stands for the failed load, which index.js
    catches (it returns [null]) and the other variants let escape.  The
    colour is a string here: for a colour that is not one (an inherited
    function or object, whose text would name the file) the assets directory
    is taken to hold no file, and the callers go to the failed load
    directly. *)
Definition generateImage (assets : string -> bool) (rank : Z) (name : string)
    (floorPrice volume : decimal) (color : string) : option Image :=
  if assets color
  then Some (mkImage rank (String.substring 0 20 name) floorPrice volume color)
  else None.

(** What one pass over the list builds: the two new dictionaries and the
    images directory, keyed by token id. *)
Record Acc := mkAcc {
  newPreviousRankings : gmap string Z;
  newPreviousColors : gmap string string;
  imagesDir : gmap Z Image
}.

(** The JSON a file holds, or the empty object when it cannot be read. *)
Definition load_object {V : Type} (file : option (gmap string V)) : gmap string V :=
  match file with
  | Some m => m
  | None => ∅
  end.

(** The JSON array a file holds, or the empty array when it cannot be read. *)
Definition load_array {A : Type} (file : option (list A)) : list A :=
  match file with
  | Some l => l
  | None => []
  end.

(** ** index.js *)

Module Index.

Record State := mkState {
  rankings_file : option (gmap string Z);
  colors_file : option (gmap string string);
  images : gmap Z Image;
  latestCollections : list Collection
}.

(** Lines 137-168: one iteration of the loop.  For a colour that is not a
    string the asset is named after the text of a function or object; the
    model takes it that no such file is among the assets, so that
    [generateImage] returns [null] and no image is written. *)
Definition body (assets : string -> bool)
    (previousRankings : gmap string Z) (previousColors : gmap string string)
    (collections : list Collection) (i : nat) (a : Acc) : Acc :=
  let tokenId := Z.of_nat i + 1 in
  match collections !! i with
  | None => a
  | Some collection =>
      if falsy_str (id collection) then a
      else
        let key := prop_key (id collection) in
        let currentRank := tokenId in
        let movement := movementAgainst previousRankings key currentRank in
        let name := or_str (name collection) "Unknown" in
        let floorPrice := or_dec (floorPrice collection) in
        let volume := or_dec (volume collection) in
        match colorAgainst movement previousColors key with
        | Some color =>
            let written :=
              match generateImage assets currentRank name floorPrice volume color with
              | Some imageBuffer => <[tokenId := imageBuffer]> (imagesDir a)
              | None => imagesDir a
              end in
            mkAcc (js_set key currentRank (newPreviousRankings a))
                  (js_set key color (newPreviousColors a))
                  written
        | None =>
            mkAcc (js_set key currentRank (newPreviousRankings a))
                  (js_set_foreign key (newPreviousColors a))
                  (imagesDir a)
        end
  end.

(** [updateRankings], given what [fetchTopCollections] returned (at most a
    hundred records, by its [slice]). *)
Definition updateRankings (assets : string -> bool)
    (collections : list Collection) (st : State) : Cycle State :=
  if (length collections =? 0)%nat then
    Aborted (mkState (rankings_file st) (colors_file st) (images st) [])
  else
    let previousRankings := load_object (rankings_file st) in
    let previousColors := load_object (colors_file st) in
    let numCollections := Nat.min (length collections) 100 in
    let a := foldl (fun a i => body assets previousRankings previousColors collections i a)
               (mkAcc ∅ ∅ (images st)) (seq 0 numCollections) in
    Completed (mkState (Some (newPreviousRankings a)) (Some (newPreviousColors a))
                 (imagesDir a) collections).

End Index.

(** ** working_redGreen.js *)

Module RedGreen.

Record State := mkState {
  rankings_file : option (gmap string Z);
  colors_file : option (gmap string string);
  images : gmap Z Image
}.

(** Lines 100-136: one iteration.  [collections[i]] past the end is
    [undefined], and reading its [id] throws; so does the image load, which
    is not guarded here, also for a colour that is not a string (no asset is
    named after the text of a function or object). *)
Definition body (assets : string -> bool)
    (previousRankings : gmap string Z) (previousColors : gmap string string)
    (collections : list Collection) (i : nat) (a : Acc) : Step Acc :=
  let tokenId := Z.of_nat i + 1 in
  match collections !! i with
  | None => Throw a
  | Some collection =>
      let key := prop_key (id collection) in
      let currentRank := tokenId in
      let movement := movementAgainst previousRankings key currentRank in
      let name := or_str (name collection) "Unknown" in
      let floorPrice := or_dec (floorPrice collection) in
      let volume := or_dec (volume collection) in
      match colorAgainst movement previousColors key with
      | None => Throw a
      | Some color =>
          match generateImage assets currentRank name floorPrice volume color with
          | None => Throw a
          | Some imageBuffer =>
              Next (mkAcc (js_set key currentRank (newPreviousRankings a))
                          (js_set key color (newPreviousColors a))
                          (<[tokenId := imageBuffer]> (imagesDir a)))
          end
      end
  end.

Definition updateRankings (assets : string -> bool)
    (collections : list Collection) (st : State) : Cycle State :=
  if (length collections =? 0)%nat then Aborted st
  else
    let previousRankings := load_object (rankings_file st) in
    let previousColors := load_object (colors_file st) in
    match for_range (body assets previousRankings previousColors collections)
            0 100 (mkAcc ∅ ∅ (images st)) with
    | Throw a => Crashed (mkState (rankings_file st) (colors_file st) (imagesDir a))
    | Next a =>
        Completed (mkState (Some (newPreviousRankings a)) (Some (newPreviousColors a))
                     (imagesDir a))
    end.

End RedGreen.

(** ** 24hr_check.js *)

Record Snapshot := mkSnapshot {
  timestamp : Z;
  rankings : gmap string Z
}.

Module Check24.

Record State := mkState {
  history_file : option (list Snapshot);
  images : gmap Z Image
}.

(** Lines 56-62: the scan keeps the closest snapshot seen so far and its
    distance, and replaces them only on a strictly smaller distance. *)
Definition scan (targetTime : Z) (best : Snapshot * Z) (snapshot : Snapshot)
    : Snapshot * Z :=
  let diff := Z.abs (timestamp snapshot - targetTime) in
  if diff <? snd best then (snapshot, diff) else best.

(** [getPreviousRankings(history, targetTime)]; [None] is [null]. *)
Definition getPreviousRankings (history : list Snapshot) (targetTime : Z)
    : option (gmap string Z) :=
  match history with
  | [] => None
  | first :: _ =>
      let best := foldl (scan targetTime)
                    (first, Z.abs (timestamp first - targetTime)) history in
      if snd best <=? 3600 then Some (rankings (fst best)) else None
  end.

(** Lines 120-130: the movement is 'same' unless a reference was found. *)
Definition movementSince (previousRankings : option (gmap string Z))
    (currentRank : Z) (collection : Collection) : Movement :=
  match previousRankings with
  | None => same
  | Some reference =>
      movementAgainst reference (prop_key (id collection)) currentRank
  end.

(** Lines 77 and 82 of [generateImage]. *)
Definition spikyType (movement : Movement) : string :=
  match movement with
  | up => "green"
  | down => "red"
  | same => "orange"
  end.

(** Lines 116-140: one iteration; the image load is not guarded here. *)
Definition body (assets : string -> bool)
    (previousRankings : option (gmap string Z))
    (collections : list Collection) (i : nat) (dir : gmap Z Image)
    : Step (gmap Z Image) :=
  let tokenId := Z.of_nat i + 1 in
  match collections !! i with
  | None => Throw dir
  | Some collection =>
      let currentRank := tokenId in
      let movement := movementSince previousRankings currentRank collection in
      let name := or_str (name collection) "Unknown" in
      let floorPrice := or_dec (floorPrice collection) in
      let volume := or_dec (volume collection) in
      match generateImage assets currentRank name floorPrice volume
              (spikyType movement) with
      | None => Throw dir
      | Some imageBuffer => Next (<[tokenId := imageBuffer]> dir)
      end
  end.

(** Lines 147-149: the rankings of the new snapshot, filled in list order. *)
Definition snapshotRankings (collections : list Collection) : gmap string Z :=
  foldl (fun acc entry =>
           js_set (prop_key (id (snd entry))) (Z.of_nat (fst entry) + 1) acc)
        ∅ (imap (fun index collection => (index, collection)) collections).

(** Lines 153-154. *)
Definition prune (history : list Snapshot) (now : Z) : list Snapshot :=
  let cutoff := now - 25 * 3600 in
  filter (fun snapshot => cutoff <= timestamp snapshot) history.

(** [updateRankings], given what [fetchTopCollections] returned and the clock
    reading [now] of line 111. *)
Definition updateRankings (assets : string -> bool) (now : Z)
    (collections : list Collection) (st : State) : Cycle State :=
  if (length collections =? 0)%nat then Aborted st
  else
    let history := load_array (history_file st) in
    let targetTime := now - 24 * 3600 in
    let previousRankings := getPreviousRankings history targetTime in
    match for_range (body assets previousRankings collections) 0 100 (images st) with
    | Throw dir => Crashed (mkState (history_file st) dir)
    | Next dir =>
        let newSnapshot := mkSnapshot now (snapshotRankings collections) in
        let history' := history ++ [newSnapshot] in
        Completed (mkState (Some (prune history' now)) dir)
    end.

End Check24.

(** ** The metadata endpoint *)

Inductive AttrValue :=
  | AttrNum (n : option Z)
  | AttrStr (s : string)
  | AttrDec (d : decimal).

Record Metadata := mkMetadata {
  md_name : string;
  md_description : string;
  md_image : string;
  md_attributes : list (string * AttrValue)
}.

(** A response: 404, the JSON body, or the 500 of an exception in the handler. *)
Inductive Response :=
  | NotFound
  | Json (body : Metadata)
  | ServerError.

(** [parseInt] gives an integer or [NaN], here [None]; this is its text in a
    template literal. *)
Definition show_num (tokenId : option Z) : string :=
  match tokenId with
  | Some t => pretty t
  | None => "NaN"
  end.

(** [a < b] and [a > b] with a possibly-[NaN] left operand. *)
Definition js_lt (a : option Z) (b : Z) : bool :=
  match a with
  | Some x => x <? b
  | None => false
  end.

Definition js_gt (a : option Z) (b : Z) : bool :=
  match a with
  | Some x => b <? x
  | None => false
  end.

(** [latestCollections[tokenId - 1]]. *)
Definition js_index {A : Type} (l : list A) (i : option Z) : option A :=
  match i with
  | Some x => if x <? 0 then None else l !! Z.to_nat x
  | None => None
  end.

(** index.js 175-193; [origin] is [req.protocol + '://' + req.get('host')]. *)
Definition Index_metadata (origin : string) (tokenId : option Z)
    (st : Index.State) : Response :=
  let known := Index.latestCollections st in
  if js_lt tokenId 1 || js_gt tokenId (Z.of_nat (length known))
     || (length known =? 0)%nat
  then NotFound
  else
    match js_index known (option_map (fun t => t - 1) tokenId) with
    | None => ServerError
    | Some collection =>
        Json (mkMetadata
                ("Rank #" +:+ show_num tokenId +:+ ": "
                   +:+ or_str (name collection) "Unknown")
                ("Represents the rank " +:+ show_num tokenId
                   +:+ " collection on ApeChain")
                (origin +:+ "/images/token" +:+ show_num tokenId +:+ ".png")
                [("Rank", AttrNum tokenId);
                 ("Collection Name", AttrStr (or_str (name collection) "Unknown"));
                 ("Floor Price", AttrDec (or_dec (floorPrice collection)));
                 ("24h Volume", AttrDec (or_dec (volume collection)))])
    end.

(** 24hr_check.js 161-173; the handler reads no state at all. *)
Definition Check24_metadata (SERVER_URL : option string) (tokenId : option Z)
    : Response :=
  if js_lt tokenId 1 || js_gt tokenId 100
  then NotFound
  else
    Json (mkMetadata
            ("Rank #" +:+ show_num tokenId)
            ("Represents the rank " +:+ show_num tokenId +:+ " collection")
            (prop_key SERVER_URL +:+ "/images/token" +:+ show_num tokenId +:+ ".png")
            [("Rank", AttrNum tokenId)]).

(** ** Vocabulary of the statements *)

(** The state an [updateRankings] call leaves behind, however it ended. *)
Definition final {S : Type} (c : Cycle S) : S :=
  match c with
  | Completed s => s
  | Aborted s => s
  | Crashed s => s
  end.

(** Distance of a snapshot from the target time. *)
Definition dist (targetTime : Z) (s : Snapshot) : Z :=
  Z.abs (timestamp s - targetTime).

(** [s], at position [i] of [history], is the first snapshot at minimal
    distance from [targetTime]. *)
Definition first_nearest (targetTime : Z) (history : list Snapshot)
    (i : nat) (s : Snapshot) : Prop :=
  history !! i = Some s /\
  (forall x, x ∈ history -> dist targetTime s <= dist targetTime x) /\
  (forall j x, (j < i)%nat -> history !! j = Some x ->
     dist targetTime s < dist targetTime x).


(** A record counts for index.js when its identity is there and not empty. *)
Definition identified (c : Collection) : Prop := falsy_str (id c) = false.

(** ** Sample inputs *)

Definition all_assets : string -> bool := fun _ => true.

Definition sample (i : nat) : Collection :=
  mkCollection (Some ("c" +:+ pretty i)) (Some ("Collection " +:+ pretty i))
    None None.

Definition top (n : nat) : list Collection := sample <$> seq 0 n.

Definition nameless : Collection :=
  mkCollection None (Some "Nameless") None None.

Definition Index_fresh : Index.State := Index.mkState None None ∅ [].
Definition Index_cached : Index.State :=
  final (Index.updateRankings all_assets (top 3) Index_fresh).
Definition RedGreen_fresh : RedGreen.State := RedGreen.mkState None None ∅.
Definition Check24_fresh : Check24.State := Check24.mkState None ∅.
Definition noon : Z := 1700000000.


(** The colour previous_colors.json holds for an identity. *)
Definition stored_color (key : string) (st : Index.State) : option string :=
  match Index.colors_file st with
  | Some colors => colors !! key
  | None => None
  end.

(** The colour and the image index.js gives the record [c] at position [i]:
    they depend on the two previous dictionaries only.  The colour is [None]
    when it is not a string, and there is then no image. *)
Definition Index_color (previousRankings : gmap string Z)
    (previousColors : gmap string string) (i : nat) (c : Collection)
    : option string :=
  colorAgainst
    (movementAgainst previousRankings (prop_key (id c)) (Z.of_nat i + 1))
    previousColors (prop_key (id c)).

Definition Index_image (assets : string -> bool)
    (previousRankings : gmap string Z) (previousColors : gmap string string)
    (i : nat) (c : Collection) : option Image :=
  match Index_color previousRankings previousColors i c with
  | Some color =>
      generateImage assets (Z.of_nat i + 1) (or_str (name c) "Unknown")
        (or_dec (floorPrice c)) (or_dec (volume c)) color
  | None => None
  end.

(** What index.js does to the new colours for the record [c] at position
    [i]: it stores the colour when that is a string, and otherwise leaves no
    entry for [JSON.stringify] to write. *)
Definition Index_store_color (previousRankings : gmap string Z)
    (previousColors : gmap string string) (i : nat) (c : Collection)
    (colors : gmap string string) : gmap string string :=
  match Index_color previousRankings previousColors i c with
  | Some color => js_set (prop_key (id c)) color colors
  | None => js_set_foreign (prop_key (id c)) colors
  end.

(** The first [n] iterations of the loop of index.js. *)
Definition Index_loop (assets : string -> bool)
    (previousRankings : gmap string Z) (previousColors : gmap string string)
    (collections : list Collection) (dir : gmap Z Image) (n : nat) : Acc :=
  foldl (fun a i => Index.body assets previousRankings previousColors collections i a)
    (mkAcc ∅ ∅ dir) (seq 0 n).

(** The file images/token<t>.png after those [n] iterations. *)
Definition Index_image_at (assets : string -> bool)
    (previousRankings : gmap string Z) (previousColors : gmap string string)
    (collections : list Collection) (dir : gmap Z Image) (n : nat) (t : Z)
    : option Image :=
  if decide (1 <= t <= Z.of_nat n) then
    match collections !! Z.to_nat (t - 1) with
    | Some c =>
        if falsy_str (id c) then dir !! t
        else
          match Index_image assets previousRankings previousColors
                  (Z.to_nat (t - 1)) c with
          | Some image => Some image
          | None => dir !! t
          end
    | None => dir !! t
    end
  else dir !! t.

(** The three collections of the specification's end-to-end example. *)
Definition abc : list Collection :=
  [mkCollection (Some "a") None None None;
   mkCollection (Some "b") None None None;
   mkCollection (Some "c") None None None].

(** A list of a hundred records whose second record has no identity. *)
Definition top_with_nameless : list Collection := <[1%nat := nameless]> (top 100).

(** ** The upstream API *)

(** The body of a collections response: [data.collections] and
    [data.continuation], each of which may be missing. *)
Record Page := mkPage {
  page_collections : option (list Collection);
  page_continuation : option string
}.

(** A response: its status, and what [response.json()] resolves to, [None]
    when the body does not parse or parses to [null] (reading a field of it
    then throws). *)
Record HttpResponse := mkResponse {
  status : Z;
  payload : option Page
}.

(** [response.ok]: the status is in 200..299. *)
Definition response_ok (r : HttpResponse) : bool :=
  (200 <=? status r) && (status r <=? 299).

(** A call of [fetch] resolves with a response or rejects. *)
Inductive Attempt :=
  | Answered (r : HttpResponse)
  | Rejected.

(** What the call of [fetch] on a URL gets, given how many calls were made
    before it. *)
Definition Network : Type := string -> nat -> Attempt.

(** The calls made so far and the waits ([setTimeout] delays, in
    milliseconds) slept through, in order. *)
Record World := mkWorld {
  calls : nat;
  sleeps : list Z
}.

Definition called (w : World) : World := mkWorld (S (calls w)) (sleeps w).
Definition slept (ms : Z) (w : World) : World := mkWorld (calls w) (sleeps w ++ [ms]).

(** The request URL: the continuation is appended when it is truthy. *)
Definition request_url (sortBy : string) (continuation : option string) : string :=
  let url := "https://api-apechain.reservoir.tools/collections/v7?sortBy="
             +:+ sortBy +:+ "&limit=20" in
  if falsy_str continuation then url
  else url +:+ "&continuation=" +:+ prop_key continuation.

(** What [fetchWithRetry] returns: a response, [null], or nothing at all when
    the loop runs out ([undefined]). *)
Inductive Fetched :=
  | Resp (r : HttpResponse)
  | Null
  | Undefined.

(** index.js 22-47: the loop from iteration [i], with [remaining] iterations
    to go. *)
Fixpoint fetchWithRetry_from (net : Network) (url : string) (retries : nat)
    (delay : Z) (i remaining : nat) (w : World) : Fetched * World :=
  match remaining with
  | O => (Undefined, w)
  | S remaining' =>
      match net url (calls w) with
      | Answered response =>
          if status response =? 429 then
            let waitTime := delay * 2 ^ Z.of_nat i in
            fetchWithRetry_from net url retries delay (S i) remaining'
              (slept waitTime (called w))
          else if negb (response_ok response) then (Null, called w)
          else (Resp response, called w)
      | Rejected =>
          let waitTime := delay * 2 ^ Z.of_nat i in
          if (i =? retries - 1)%nat then (Null, called w)
          else
            fetchWithRetry_from net url retries delay (S i) remaining'
              (slept waitTime (called w))
      end
  end.

Definition fetchWithRetry (net : Network) (url : string) (retries : nat)
    (delay : Z) (w : World) : Fetched * World :=
  fetchWithRetry_from net url retries delay 0 retries w.

(** How [fetchTopCollections] ends: with its list, or with an exception it
    does not catch (a rejected [fetch], a body that does not parse). *)
Inductive FetchOutcome (A : Type) :=
  | Listed (collections : list A)
  | Threw.
Arguments Listed {A} collections.
Arguments Threw {A}.

(** index.js 55-78: the [while] loop, with the iterations it may still take;
    [None] when they run out.  [response.json()] is awaited outside any
    [try]. *)
Fixpoint Index_fetch_loop (net : Network) (fuel : nat)
    (collections : list Collection) (continuation : option string) (w : World)
    : option (FetchOutcome Collection * World) :=
  if (length collections <? 100)%nat then
    match fuel with
    | O => None
    | S fuel' =>
        let url := request_url "1dayVolume" continuation in
        let fetched := fetchWithRetry net url 3 1000 w in
        match fst fetched with
        | Resp response =>
            match payload response with
            | None => Some (Threw, snd fetched)
            | Some data =>
                match page_collections data with
                | None => Some (Listed collections, snd fetched)
                | Some [] => Some (Listed collections, snd fetched)
                | Some batch =>
                    let collections' := collections ++ batch in
                    let continuation' := page_continuation data in
                    if falsy_str continuation' || (100 <=? length collections')%nat
                    then Some (Listed collections', snd fetched)
                    else Index_fetch_loop net fuel' collections' continuation'
                           (slept 500 (snd fetched))
                end
            end
        | Null => Some (Listed collections, snd fetched)
        | Undefined => Some (Listed collections, snd fetched)
        end
    end
  else Some (Listed collections, w).

(** index.js 49-81. *)
Definition Index_fetchTopCollections (net : Network) (fuel : nat) (w : World)
    : option (FetchOutcome Collection * World) :=
  match Index_fetch_loop net fuel [] None w with
  | Some (Listed collections, w') => Some (Listed (take 100 collections), w')
  | Some (Threw, w') => Some (Threw, w')
  | None => None
  end.

(** index.js 109-173 as a whole: the fetch, then the rest of
    [updateRankings]; an exception of the fetch rejects the call before it has
    touched anything. *)
Definition Index_updateRankings_online (net : Network) (fuel : nat)
    (assets : string -> bool) (w : World) (st : Index.State)
    : option (Cycle Index.State * World) :=
  match Index_fetchTopCollections net fuel w with
  | Some (Listed collections, w') =>
      Some (Index.updateRankings assets collections st, w')
  | Some (Threw, w') => Some (Crashed st, w')
  | None => None
  end.

(** [collections.concat(data.collections)]: a missing field is appended as a
    single [undefined] entry, here [None]. *)
Definition concat_field (collections : list (option Collection))
    (field : option (list Collection)) : list (option Collection) :=
  match field with
  | Some batch => collections ++ (Some <$> batch)
  | None => collections ++ [None]
  end.

(** 24hr_check.js 29-43 (the same text is in working_redGreen.js 30-44 and in
    the server of [getRankMovement], lines 14-30): the [while] loop; neither
    the [fetch] nor [response.json()] is guarded. *)
Fixpoint Check24_fetch_loop (net : Network) (fuel : nat)
    (collections : list (option Collection)) (continuation : option string)
    (w : World) : option (FetchOutcome (option Collection) * World) :=
  if (length collections <? 100)%nat then
    match fuel with
    | O => None
    | S fuel' =>
        let url := request_url "1DayVolume" continuation in
        match net url (calls w) with
        | Rejected => Some (Threw, called w)
        | Answered response =>
            if negb (response_ok response) then Some (Listed collections, called w)
            else
              match payload response with
              | None => Some (Threw, called w)
              | Some data =>
                  let collections' := concat_field collections (page_collections data) in
                  let continuation' := page_continuation data in
                  if falsy_str continuation' then Some (Listed collections', called w)
                  else Check24_fetch_loop net fuel' collections' continuation' (called w)
              end
        end
    end
  else Some (Listed collections, w).

(** 24hr_check.js 23-46. *)
Definition Check24_fetchTopCollections (net : Network) (fuel : nat) (w : World)
    : option (FetchOutcome (option Collection) * World) :=
  match Check24_fetch_loop net fuel [] None w with
  | Some (Listed collections, w') => Some (Listed (take 100 collections), w')
  | Some (Threw, w') => Some (Threw, w')
  | None => None
  end.



(** How a fetch of index.js that did not return a list ended: on the last
    call made, a 2xx answer whose body does not parse. *)
Definition Index_threw_at (net : Network) (w w' : World) : Prop :=
  (calls w < calls w')%nat /\
  exists continuation r,
    net (request_url "1dayVolume" continuation) (calls w' - 1)%nat = Answered r /\
    response_ok r = true /\ payload r = None.


(** An attempt that [fetchWithRetry] may follow with another one: a rejection
    or a 429. *)
Definition transient (a : Attempt) : Prop :=
  a = Rejected \/ exists r, a = Answered r /\ status r = 429.

(** The waits of [k] retries starting at iteration [i]: the delay doubled
    each time. *)
Definition waits (delay : Z) (i k : nat) : list Z :=
  (fun j : nat => delay * 2 ^ Z.of_nat j) <$> seq i k.

(** A network that answers every request with an empty page and a
    continuation. *)
Definition empty_pages : Network :=
  fun _ _ => Answered (mkResponse 200 (Some (mkPage (Some []) (Some "next")))).

(** A network that answers every request with 429. *)
Definition rate_limited : Network :=
  fun _ _ => Answered (mkResponse 429 None).

(** A network that serves the first sixty sample collections, twenty a page. *)
Definition three_pages : Network :=
  fun _ n =>
    match n with
    | 0%nat =>
        Answered (mkResponse 200 (Some (mkPage (Some (sample <$> seq 0 20)) (Some "p1"))))
    | 1%nat =>
        Answered (mkResponse 200 (Some (mkPage (Some (sample <$> seq 20 20)) (Some "p2"))))
    | 2%nat =>
        Answered (mkResponse 200 (Some (mkPage (Some (sample <$> seq 40 20)) None)))
    | _ => Rejected
    end.

Definition dawn : World := mkWorld 0 [].

(** A network that serves one page of twenty collections with a continuation
    and answers 500 from then on. *)
Definition one_page_then_down : Network :=
  fun _ n =>
    match n with
    | 0%nat => Answered (mkResponse 200 (Some (mkPage (Some (top 20)) (Some "p1"))))
    | _ => Answered (mkResponse 500 None)
    end.

(** A network whose answers are 200 with a body that does not parse. *)
Definition garbled : Network := fun _ _ => Answered (mkResponse 200 None).

(** Two collections, the first of which is named like a member of
    [Object.prototype]. *)
Definition constructor_first : list Collection :=
  [mkCollection (Some "constructor") None None None; sample 1].

(** The asset files of the colour variants. *)
Definition green_and_red : string -> bool :=
  fun color => bool_decide (color = "green") || bool_decide (color = "red").

(** A name of [n] times the letter e with an acute accent, which is the one
    code unit 233. *)
Definition e_acute (n : nat) : string :=
  String.string_of_list_ascii (replicate n (Ascii.ascii_of_nat 233)).

(** A history of three snapshots, taken 26 hours, one hour and five minutes
    before [noon]. *)
Definition three_snapshots : Check24.State :=
  Check24.mkState
    (Some [mkSnapshot (noon - 26 * 3600) ∅;
           mkSnapshot (noon - 3600) (Check24.snapshotRankings abc);
           mkSnapshot (noon - 300) (Check24.snapshotRankings (top 100))])
    ∅.


(** A colour the colour variants draw with. *)
Definition green_or_red (color : string) : Prop :=
  color = "green" \/ color = "red".

(** The history lists its snapshots from the oldest to the newest. *)
Definition chronological (history : list Snapshot) : Prop :=
  StronglySorted (fun a b => timestamp a <= timestamp b) history.

(** * Properties *)

(** ** Movement *)

Lemma or_num_valid (stored : option Z) :
  valid_reference stored -> or_num stored 101 = referenceRank stored.
Proof.
  destruct stored as [r|]; simpl; [|reflexivity].
  intros Hr. destruct (Z.eqb_spec r 0); [lia | reflexivity].
Qed.

Lemma rankMovement_cases (currentRank : Z) (stored : option Z) :
  let r := or_num stored 101 in
  (currentRank < r /\ rankMovement currentRank stored = up) \/
  (r < currentRank /\ rankMovement currentRank stored = down) \/
  (currentRank = r /\ rankMovement currentRank stored = same).
Proof.
  unfold rankMovement. simpl.
  destruct (Z.ltb_spec currentRank (or_num stored 101)); [left; split; [lia | reflexivity] |].
  destruct (Z.ltb_spec (or_num stored 101) currentRank).
  - right; left; split; [lia | reflexivity].
  - right; right; split; [lia | reflexivity].
Qed.

(** What a read finds for a reference that is recorded, or for one that is
    not there at all. *)
Lemma js_get_Own {V : Type} (obj : gmap string V) (key : string) (v : V) :
  js_get obj key = Own v <-> obj !! key = Some v.
Proof.
  unfold js_get. destruct (obj !! key); [|destruct (inherited key)];
    split; congruence.
Qed.

Lemma js_get_Absent {V : Type} (obj : gmap string V) (key : string) :
  js_get obj key = Absent <-> obj !! key = None /\ inherited key = false.
Proof.
  unfold js_get. destruct (obj !! key); [|destruct (inherited key)];
    split; try congruence; try (by intros [? ?]); done.
Qed.

Lemma js_get_Inherited {V : Type} (obj : gmap string V) (key : string) :
  js_get obj key = Inherited <-> obj !! key = None /\ inherited key = true.
Proof.
  unfold js_get. destruct (obj !! key); [|destruct (inherited key)];
    split; try congruence; try (by intros [? ?]); done.
Qed.

Lemma getRankMovement_movementAgainst (file : gmap string Z) (currentRank : Z)
    (collectionId : string) :
  Part001.getRankMovement (Some file) currentRank collectionId
  = Some (movementAgainst file collectionId currentRank).
Proof.
  unfold Part001.getRankMovement, movementAgainst, rankMovement.
  destruct (js_get file collectionId); [| reflexivity |];
    (destruct (_ <? _); [reflexivity|]; destruct (_ <? _); reflexivity).
Qed.

(** The comparison on its own.  For a current rank in 1..100 and a reference
    rank that is either recorded in 1..101 or not found (then 101), the
    movement is up exactly when the current rank is below the reference, down
    exactly when it is above, same exactly when they are equal; index.js and
    [getRankMovement] compute it whenever the read of the dictionary finds the
    recorded rank, or finds nothing. *)
Lemma movement_up_down_same (currentRank : Z) (stored : option Z) :
  1 <= currentRank <= 100 ->
  valid_reference stored ->
  (rankMovement currentRank stored = up <-> currentRank < referenceRank stored) /\
  (rankMovement currentRank stored = down <-> currentRank > referenceRank stored) /\
  (rankMovement currentRank stored = same <-> currentRank = referenceRank stored) /\
  (forall (file : gmap string Z) (collectionId : string),
     js_get file collectionId
     = match stored with Some r => Own r | None => Absent end ->
     movementAgainst file collectionId currentRank = rankMovement currentRank stored /\
     Part001.getRankMovement (Some file) currentRank collectionId
     = Some (rankMovement currentRank stored)).
Proof.
  intros _ Hv. rewrite <- (or_num_valid stored Hv).
  pose proof (rankMovement_cases currentRank stored) as H. simpl in H.
  repeat split; try (intros Hm; destruct H as [[? E]|[[? E]|[? E]]];
    rewrite ?E in *; first [lia | discriminate | reflexivity | congruence ]).
  - unfold movementAgainst. rewrite H0. by destruct stored.
  - rewrite getRankMovement_movementAgainst. unfold movementAgainst.
    rewrite H0. by destruct stored.
Qed.

Lemma movement_up_down_same_witness :
  (rankMovement 7 (Some 12) = up <-> 7 < referenceRank (Some 12)) /\
  (rankMovement 7 (Some 12) = down <-> 7 > referenceRank (Some 12)) /\
  (rankMovement 7 (Some 12) = same <-> 7 = referenceRank (Some 12)) /\
  (forall (file : gmap string Z) (collectionId : string),
     js_get file collectionId = Own 12 ->
     movementAgainst file collectionId 7 = rankMovement 7 (Some 12) /\
     Part001.getRankMovement (Some file) 7 collectionId
     = Some (rankMovement 7 (Some 12))).
Proof.
  apply (movement_up_down_same 7 (Some 12)); simpl; lia.
Defined.

(** C1 on the lookup.  An identity that names a member of [Object.prototype]
    and that the reference state does not list is not resolved to 101: where
    the comparison with 101 gives up for every current rank in 1..100, the
    read finds the inherited member and index.js, like [getRankMovement],
    answers same.  [getRankMovement] moreover throws when its file cannot be
    read. *)
Theorem inherited_identity_compares_same (file : gmap string Z)
    (currentRank : Z) (collectionId : string) :
  1 <= currentRank <= 100 ->
  file !! collectionId = None ->
  inherited collectionId = true ->
  rankMovement currentRank None = up /\
  movementAgainst file collectionId currentRank = same /\
  Part001.getRankMovement (Some file) currentRank collectionId = Some same /\
  Part001.getRankMovement None currentRank collectionId = None.
Proof.
  intros Hrank Hnone Hinh.
  assert (js_get file collectionId = Inherited) as Hget
    by (by apply js_get_Inherited).
  split; [|split; [|split]].
  - unfold rankMovement. simpl. destruct (Z.ltb_spec currentRank 101); [done | lia].
  - unfold movementAgainst. by rewrite Hget.
  - rewrite getRankMovement_movementAgainst. unfold movementAgainst. by rewrite Hget.
  - reflexivity.
Qed.

Lemma inherited_identity_compares_same_witness :
  rankMovement 5 None = up /\
  movementAgainst ∅ "constructor" 5 = same /\
  Part001.getRankMovement (Some ∅) 5 "constructor" = Some same /\
  Part001.getRankMovement None 5 "constructor" = None.
Proof.
  apply (inherited_identity_compares_same ∅ 5 "constructor").
  - lia.
  - reflexivity.
  - reflexivity.
Defined.

(** ** Reference lookup in the rolling history *)

Lemma first_nearest_keep (t : Z) (pre : list Snapshot) (i : nat) (b x : Snapshot) :
  first_nearest t pre i b -> dist t b <= dist t x ->
  first_nearest t (pre ++ [x]) i b.
Proof.
  intros (Hi & Hmin & Hfirst) Hle. split; [|split].
  - apply lookup_app_l_Some, Hi.
  - intros y Hy. apply elem_of_app in Hy as [Hy|Hy]; [by apply Hmin|].
    apply list_elem_of_singleton in Hy. by subst.
  - intros j y Hj Hy. apply (Hfirst j y Hj).
    apply lookup_lt_Some in Hi.
    rewrite lookup_app_l in Hy; [done | lia].
Qed.

Lemma first_nearest_replace (t : Z) (pre : list Snapshot) (i : nat) (b x : Snapshot) :
  first_nearest t pre i b -> dist t x < dist t b ->
  first_nearest t (pre ++ [x]) (length pre) x.
Proof.
  intros (Hi & Hmin & Hfirst) Hlt. split; [|split].
  - by rewrite lookup_app_r, Nat.sub_diag.
  - intros y Hy. apply elem_of_app in Hy as [Hy|Hy].
    + specialize (Hmin y Hy). lia.
    + apply list_elem_of_singleton in Hy. subst. lia.
  - intros j y Hj Hy. rewrite lookup_app_l in Hy by done.
    assert (y ∈ pre) as Hin by (apply list_elem_of_lookup; eauto).
    specialize (Hmin y Hin). lia.
Qed.

(** The scan, started on the first nearest snapshot of what was already seen,
    ends on the first nearest snapshot of the whole list. *)
Lemma scan_first_nearest (t : Z) (rest pre : list Snapshot) (i : nat) (b : Snapshot) :
  first_nearest t pre i b ->
  exists i' b',
    first_nearest t (pre ++ rest) i' b' /\
    foldl (Check24.scan t) (b, dist t b) rest = (b', dist t b').
Proof.
  revert pre i b. induction rest as [|x rest IH]; intros pre i b Hb.
  - exists i, b. by rewrite app_nil_r.
  - simpl. unfold Check24.scan at 2. simpl. fold (dist t x).
    replace (pre ++ x :: rest) with ((pre ++ [x]) ++ rest)
      by (by rewrite <- app_assoc).
    destruct (Z.ltb_spec (dist t x) (dist t b)) as [Hlt|Hge].
    + apply (IH (pre ++ [x]) (length pre) x).
      by apply (first_nearest_replace t pre i b).
    + apply (IH (pre ++ [x]) i b). by apply first_nearest_keep.
Qed.

Lemma scan_self (t : Z) (s : Snapshot) :
  Check24.scan t (s, dist t s) s = (s, dist t s).
Proof.
  unfold Check24.scan. simpl. fold (dist t s). by rewrite Z.ltb_irrefl.
Qed.

Lemma first_nearest_singleton (t : Z) (s : Snapshot) : first_nearest t [s] 0 s.
Proof.
  split; [done | split].
  - intros x Hx. apply list_elem_of_singleton in Hx. subst. lia.
  - intros j x Hj. lia.
Qed.

(** C2.  On an empty history the lookup returns nothing.  On a non-empty
    history it settles on the first snapshot, in list order, whose distance
    from the target time is minimal: no snapshot is nearer and every earlier
    one is strictly farther.  It returns that snapshot's rankings when the
    distance is at most 3600 seconds, and nothing otherwise. *)
Theorem getPreviousRankings_nearest (targetTime : Z) :
  Check24.getPreviousRankings [] targetTime = None /\
  forall (first : Snapshot) (rest : list Snapshot),
    exists (i : nat) (chosen : Snapshot),
      first_nearest targetTime (first :: rest) i chosen /\
      Check24.getPreviousRankings (first :: rest) targetTime
      = if dist targetTime chosen <=? 3600 then Some (rankings chosen) else None.
Proof.
  split; [reflexivity|]. intros first rest.
  destruct (scan_first_nearest targetTime rest [first] 0 first
              (first_nearest_singleton targetTime first)) as (i & b & Hb & Hfold).
  exists i, b. split; [exact Hb|].
  unfold Check24.getPreviousRankings.
  change (foldl (Check24.scan targetTime)
            (first, Z.abs (timestamp first - targetTime)) (first :: rest))
    with (foldl (Check24.scan targetTime)
            (Check24.scan targetTime (first, dist targetTime first) first) rest).
  rewrite scan_self, Hfold. reflexivity.
Qed.

(** The two lookups of the specification's examples: the snapshot half an hour
    from the target wins over those two and twenty-two hours away, and a lone
    snapshot six hours away is too far. *)
Lemma getPreviousRankings_examples (t : Z) (r1 r2 r3 : gmap string Z) :
  Check24.getPreviousRankings
    [mkSnapshot (t - 26 * 3600) r1; mkSnapshot (t - 24 * 3600 - 1800) r2;
     mkSnapshot (t - 2 * 3600) r3] (t - 24 * 3600) = Some r2 /\
  Check24.getPreviousRankings [mkSnapshot (t - 30 * 3600) r1] (t - 24 * 3600) = None.
Proof.
  unfold Check24.getPreviousRankings, Check24.scan. simpl.
  replace (t - 26 * 3600 - (t - 24 * 3600)) with (-7200) by lia.
  replace (t - 24 * 3600 - 1800 - (t - 24 * 3600)) with (-1800) by lia.
  replace (t - 2 * 3600 - (t - 24 * 3600)) with 79200 by lia.
  replace (t - 30 * 3600 - (t - 24 * 3600)) with (-21600) by lia.
  split; reflexivity.
Qed.

(** ** Pruning *)

Lemma prune_cons (s : Snapshot) (history : list Snapshot) (now : Z) :
  Check24.prune (s :: history) now
  = if decide (now - 25 * 3600 <= timestamp s)
    then s :: Check24.prune history now
    else Check24.prune history now.
Proof. unfold Check24.prune. simpl. rewrite filter_cons. reflexivity. Qed.

Lemma prune_app (h1 h2 : list Snapshot) (now : Z) :
  Check24.prune (h1 ++ h2) now = Check24.prune h1 now ++ Check24.prune h2 now.
Proof. unfold Check24.prune. simpl. apply filter_app. Qed.

Lemma elem_of_prune (s : Snapshot) (history : list Snapshot) (now : Z) :
  s ∈ Check24.prune history now <->
  s ∈ history /\ now - 25 * 3600 <= timestamp s.
Proof. unfold Check24.prune. simpl. rewrite list_elem_of_filter. tauto. Qed.

(** C7.  Pruning keeps a snapshot exactly when its timestamp is at least
    [now - 25*3600] and drops it exactly when it is strictly older; the kept
    snapshots stay in their order, each as often as it occurred.  From
    snapshots 26, 20 and 1 hours old, the last two remain. *)
Theorem prune_drops_older_than_25h (history : list Snapshot) (now : Z) :
  (forall s, s ∈ Check24.prune history now <->
             s ∈ history /\ now - 25 * 3600 <= timestamp s) /\
  (forall s, s ∈ history -> timestamp s < now - 25 * 3600 ->
             s ∉ Check24.prune history now) /\
  Check24.prune history now `sublist_of` history /\
  (forall h1 s h2, history = h1 ++ s :: h2 ->
     Check24.prune history now
     = Check24.prune h1 now
       ++ (if decide (now - 25 * 3600 <= timestamp s) then [s] else [])
       ++ Check24.prune h2 now) /\
  (forall r1 r2 r3,
     Check24.prune [mkSnapshot (now - 26 * 3600) r1;
                    mkSnapshot (now - 20 * 3600) r2;
                    mkSnapshot (now - 1 * 3600) r3] now
     = [mkSnapshot (now - 20 * 3600) r2; mkSnapshot (now - 1 * 3600) r3]).
Proof.
  split; [intros s; apply elem_of_prune|].
  split; [intros s _ Hold Hin; apply elem_of_prune in Hin; lia|].
  split; [apply sublist_filter|].
  split.
  - intros h1 s h2 ->. rewrite prune_app, prune_cons. by case_decide.
  - intros r1 r2 r3. rewrite !prune_cons. simpl.
    repeat case_decide; simpl in *; first [lia | reflexivity].
Qed.

(** ** Sticky colour *)

(** A resolved colour is never the empty string, so a colour read back from
    previous_colors.json in a later cycle is never falsy. *)
Lemma resolveColor_nonempty (movement : Movement) (previousColor : option string) :
  resolveColor movement previousColor <> "".
Proof.
  destruct movement; simpl; try discriminate.
  destruct previousColor as [[|a c]|]; simpl; discriminate.
Qed.


(** ** Empty fetch *)

(** C4, as the code has it.  On an empty fetch every variant returns early:
    the rankings, colours and history files and the images are those of
    before.  working_redGreen.js and 24hr_check.js leave the whole state as it
    was; index.js also empties its in-memory list of latest collections. *)
Theorem empty_fetch_aborts (assets : string -> bool) (now : Z)
    (si : Index.State) (sr : RedGreen.State) (sc : Check24.State) :
  Index.updateRankings assets [] si
  = Aborted (Index.mkState (Index.rankings_file si) (Index.colors_file si)
               (Index.images si) []) /\
  RedGreen.updateRankings assets [] sr = Aborted sr /\
  Check24.updateRankings assets now [] sc = Aborted sc.
Proof. repeat split. Qed.

(** C4, as stated, fails for index.js: after a cycle that cached three
    collections, an empty fetch leaves a different in-memory state. *)
Lemma empty_fetch_clears_cache :
  Index.latestCollections Index_cached = top 3 /\
  Index.latestCollections (final (Index.updateRankings all_assets [] Index_cached))
  = [] /\
  final (Index.updateRankings all_assets [] Index_cached) <> Index_cached.
Proof.
  split; [reflexivity|]. split; [reflexivity|].
  intros H. apply (f_equal Index.latestCollections) in H. discriminate H.
Qed.

(** ** Metadata endpoint *)

(** C9, as the code has it.  For an integer token id, index.js answers 404
    exactly when the id is below 1, above the number of cached collections, or
    nothing is cached; otherwise it answers with the JSON of that rank, built
    from the cached collection at that position.  24hr_check.js keeps no cache:
    it answers 404 exactly when the id is outside 1..100, and otherwise with
    the JSON of that rank. *)
Theorem metadata_not_found (tokenId : Z) :
  (forall origin st,
     Index_metadata origin (Some tokenId) st = NotFound <->
     tokenId < 1 \/ tokenId > Z.of_nat (length (Index.latestCollections st))
     \/ Index.latestCollections st = []) /\
  (forall origin st,
     1 <= tokenId <= Z.of_nat (length (Index.latestCollections st)) ->
     exists collection body,
       Index.latestCollections st !! Z.to_nat (tokenId - 1) = Some collection /\
       Index_metadata origin (Some tokenId) st = Json body /\
       md_attributes body !! 0%nat = Some ("Rank", AttrNum (Some tokenId)) /\
       md_attributes body !! 1%nat
       = Some ("Collection Name", AttrStr (or_str (name collection) "Unknown"))) /\
  (forall url,
     Check24_metadata url (Some tokenId) = NotFound <->
     tokenId < 1 \/ tokenId > 100) /\
  (forall url,
     1 <= tokenId <= 100 ->
     exists body,
       Check24_metadata url (Some tokenId) = Json body /\
       md_attributes body = [("Rank", AttrNum (Some tokenId))]).
Proof.
  split; [|split; [|split]].
  - intros origin st. unfold Index_metadata, js_lt, js_gt, js_index, option_map.
    generalize (Index.latestCollections st) as known. intros known.
    destruct (Nat.eqb_spec (length known) 0) as [H0|H0].
    { rewrite orb_true_r. apply length_zero_iff_nil in H0.
      split; [auto | reflexivity]. }
    rewrite orb_false_r.
    assert (known <> []) as Hne by (intros ->; apply H0; reflexivity).
    destruct (Z.ltb_spec tokenId 1) as [H1|H1];
      [split; [auto | reflexivity]|].
    destruct (Z.ltb_spec (Z.of_nat (length known)) tokenId) as [H2|H2];
      [split; [intros _; right; left; lia | reflexivity]|].
    cbn [orb].
    destruct (Z.ltb_spec (tokenId - 1) 0); [lia|].
    destruct (lookup_lt_is_Some_2 known (Z.to_nat (tokenId - 1))) as [c Hc]; [lia|].
    rewrite Hc. split; [discriminate|].
    intros [?|[?|?]]; [lia | lia | done].
  - intros origin st Hrange. unfold Index_metadata. simpl.
    destruct (Z.ltb_spec tokenId 1); [lia|].
    destruct (Z.ltb_spec (Z.of_nat (length (Index.latestCollections st))) tokenId);
      [lia|].
    destruct (Nat.eqb_spec (length (Index.latestCollections st)) 0); [lia|].
    simpl. destruct (Z.ltb_spec (tokenId - 1) 0); [lia|].
    destruct (lookup_lt_is_Some_2 (Index.latestCollections st)
                (Z.to_nat (tokenId - 1))) as [c Hc]; [lia|].
    rewrite Hc. eexists c, _. repeat split.
  - intros url. unfold Check24_metadata. simpl.
    destruct (Z.ltb_spec tokenId 1); simpl; [split; [auto | reflexivity]|].
    destruct (Z.ltb_spec 100 tokenId); simpl;
      [split; [intros _; right; lia | reflexivity]|].
    split; [discriminate | lia].
  - intros url Hrange. unfold Check24_metadata. simpl.
    destruct (Z.ltb_spec tokenId 1); [lia|].
    destruct (Z.ltb_spec 100 tokenId); [lia|].
    simpl. eexists. split; reflexivity.
Qed.

(** A token id that does not parse ([NaN]) passes both comparisons: index.js
    then reads a missing list entry and fails with a server error once data
    is cached; 24hr_check.js answers with a JSON body. *)
Lemma metadata_nan (origin : string) (url : option string) (st : Index.State) :
  (Index.latestCollections st = [] -> Index_metadata origin None st = NotFound) /\
  (Index.latestCollections st <> [] -> Index_metadata origin None st = ServerError) /\
  exists body, Check24_metadata url None = Json body.
Proof.
  unfold Index_metadata. simpl.
  destruct (Index.latestCollections st) as [|c known]; simpl.
  - split; [reflexivity|]. split; [done | by eexists].
  - split; [discriminate|]. split; [reflexivity | by eexists].
Qed.

(** C9, as stated, fails for 24hr_check.js: with nothing fetched yet (a known
    count of zero) a request for rank 1 is answered with a JSON body. *)
Lemma metadata_without_data :
  ~ (forall (known : nat) (url : option string) (tokenId : Z),
       Check24_metadata url (Some tokenId) = NotFound <->
       tokenId < 1 \/ tokenId > Z.of_nat known \/ known = 0%nat).
Proof.
  intros H. specialize (H 0%nat None 1). destruct H as [_ H].
  discriminate H. right; right; reflexivity.
Qed.

(** ** The rolling-history cycle *)

(** A loop whose list runs out before its bound throws. *)
Lemma for_range_runs_out {A : Type} (body : nat -> A -> Step A)
    (count start : nat) (a : A) (i : nat) :
  (start <= i < start + count)%nat ->
  (forall a0, exists a1, body i a0 = Throw a1) ->
  exists a', for_range body start count a = Throw a'.
Proof.
  revert start a. induction count as [|count IH]; intros start a Hi Hthrow; [lia|].
  simpl. destruct (body start a) as [a1|a1] eqn:Hb; [|by eexists].
  destruct (decide (i = start)) as [->|Hne].
  - destruct (Hthrow a) as [a2 Ha2]. congruence.
  - apply IH; [lia | done].
Qed.

(** A loop none of whose iterations throws runs to its end. *)
Lemma for_range_runs {A : Type} (body : nat -> A -> Step A)
    (count start : nat) (a : A) :
  (forall i a0, (start <= i < start + count)%nat -> exists a1, body i a0 = Next a1) ->
  exists a', for_range body start count a = Next a'.
Proof.
  revert start a. induction count as [|count IH]; intros start a Hok; [by eexists|].
  simpl. destruct (Hok start a) as [a1 ->]; [lia|].
  apply IH. intros i a0 Hi. apply Hok. lia.
Qed.

(** What the image of 24hr_check.js for position [i] is. *)
Lemma Check24_body_inv (assets : string -> bool)
    (reference : option (gmap string Z)) (collections : list Collection)
    (i : nat) (dir dir' : gmap Z Image) :
  Check24.body assets reference collections i dir = Next dir' ->
  exists c,
    collections !! i = Some c /\
    dir' = <[Z.of_nat i + 1 :=
               mkImage (Z.of_nat i + 1)
                 (String.substring 0 20 (or_str (name c) "Unknown"))
                 (or_dec (floorPrice c)) (or_dec (volume c))
                 (Check24.spikyType
                    (Check24.movementSince reference (Z.of_nat i + 1) c))]> dir.
Proof.
  unfold Check24.body, generateImage. simpl.
  destruct (collections !! i) as [c|]; [|discriminate].
  destruct (assets _); [|discriminate].
  intros [= <-]. by exists c.
Qed.

Lemma Check24_loop_images (assets : string -> bool)
    (reference : option (gmap string Z)) (collections : list Collection)
    (count start : nat) (dir dir' : gmap Z Image) :
  for_range (Check24.body assets reference collections) start count dir = Next dir' ->
  (forall i, (start <= i < start + count)%nat ->
     exists c image,
       collections !! i = Some c /\
       dir' !! (Z.of_nat i + 1) = Some image /\
       img_rank image = Z.of_nat i + 1 /\
       img_color image
       = Check24.spikyType (Check24.movementSince reference (Z.of_nat i + 1) c)) /\
  (forall t, ~ (Z.of_nat start + 1 <= t <= Z.of_nat (start + count)) ->
     dir' !! t = dir !! t).
Proof.
  revert start dir. induction count as [|count IH]; intros start dir Hloop.
  - simpl in Hloop. injection Hloop as <-. split; [intros i Hi; lia | done].
  - simpl in Hloop.
    destruct (Check24.body assets reference collections start dir) as [d1|d1] eqn:Hb;
      [|discriminate].
    apply Check24_body_inv in Hb as (c & Hc & ->).
    destruct (IH _ _ Hloop) as [Hin Hout]. split.
    + intros i Hi. destruct (decide (i = start)) as [->|Hne].
      * exists c. eexists. split; [done|].
        rewrite Hout by lia. rewrite lookup_insert_eq. done.
      * apply Hin. lia.
    + intros t Ht. rewrite Hout by lia. apply lookup_insert_ne. lia.
Qed.

(** With a hundred collections and every asset in place the cycle of
    24hr_check.js completes; with fewer than a hundred it never does. *)
Lemma Check24_completes (assets : string -> bool) (now : Z)
    (collections : list Collection) (st : Check24.State) :
  length collections = 100%nat -> (forall c, assets c = true) ->
  exists st', Check24.updateRankings assets now collections st = Completed st'.
Proof.
  intros Hlen Hassets. unfold Check24.updateRankings. rewrite Hlen.
  cbn [Nat.eqb].
  match goal with
  | |- context [for_range ?b ?s ?c ?a] =>
      destruct (for_range_runs b c s a) as [dir ->]; [|by eexists]
  end.
  intros i dir Hi. unfold Check24.body, generateImage.
  destruct (lookup_lt_is_Some_2 collections i) as [c ->]; [lia|].
  cbv zeta. rewrite Hassets. by eexists.
Qed.

Lemma Check24_short_list_crashes (assets : string -> bool) (now : Z)
    (collections : list Collection) (st : Check24.State) :
  (0 < length collections < 100)%nat ->
  exists st', Check24.updateRankings assets now collections st = Crashed st' /\
              Check24.history_file st' = Check24.history_file st.
Proof.
  intros Hlen. unfold Check24.updateRankings.
  destruct (Nat.eqb_spec (length collections) 0); [lia|].
  match goal with
  | |- context [for_range ?b ?s ?c ?a] =>
      destruct (for_range_runs_out b c s a (length collections))
        as [dir ->]; [lia | | by eexists]
  end.
  intros dir. unfold Check24.body.
  rewrite lookup_ge_None_2 by lia. by eexists.
Qed.

(** C10.  When a cycle of 24hr_check.js completes, the history it persists is
    the pruned old history followed by the new snapshot, stamped with the
    cycle's [now]: it is not empty, its last entry is the new snapshot, and
    every entry has a timestamp of at least [now - 25*3600]. *)
Theorem completed_cycle_history (assets : string -> bool) (now : Z)
    (collections : list Collection) (st st' : Check24.State) :
  Check24.updateRankings assets now collections st = Completed st' ->
  exists history,
    Check24.history_file st' = Some history /\
    history
    = Check24.prune (load_array (Check24.history_file st)) now
      ++ [mkSnapshot now (Check24.snapshotRankings collections)] /\
    history <> [] /\
    last history = Some (mkSnapshot now (Check24.snapshotRankings collections)) /\
    Forall (fun s => now - 25 * 3600 <= timestamp s) history.
Proof.
  unfold Check24.updateRankings.
  destruct (length collections =? 0)%nat; [discriminate|].
  destruct (for_range _ _ _ _) as [dir|dir]; [|discriminate].
  intros [= <-]. simpl. eexists. split; [reflexivity|].
  set (old := load_array (Check24.history_file st)).
  set (new := mkSnapshot now (Check24.snapshotRankings collections)).
  assert (Check24.prune (old ++ [new]) now = Check24.prune old now ++ [new]) as ->.
  { rewrite prune_app, prune_cons. simpl. case_decide; [reflexivity | lia]. }
  split; [reflexivity|]. split; [by destruct (Check24.prune old now)|].
  split; [apply last_snoc|].
  apply Forall_app. split.
  - apply Forall_forall. intros s Hs. by apply elem_of_prune in Hs as [_ Hs].
  - apply Forall_singleton. simpl. lia.
Qed.

Lemma completed_cycle_history_witness :
  exists history,
    Check24.history_file
      (final (Check24.updateRankings all_assets noon (top 100) Check24_fresh))
    = Some history /\
    history
    = Check24.prune (load_array (Check24.history_file Check24_fresh)) noon
      ++ [mkSnapshot noon (Check24.snapshotRankings (top 100))] /\
    history <> [] /\
    last history = Some (mkSnapshot noon (Check24.snapshotRankings (top 100))) /\
    Forall (fun s => noon - 25 * 3600 <= timestamp s) history.
Proof.
  apply (completed_cycle_history all_assets noon (top 100) Check24_fresh).
  vm_compute. reflexivity.
Defined.

(** ** working_redGreen.js: the unguarded loop *)

Lemma lookup_js_set_eq {V : Type} (key : string) (v : V) (obj : gmap string V) :
  key <> "__proto__" -> js_set key v obj !! key = Some v.
Proof.
  intros Hk. unfold js_set. case_bool_decide; [done|]. apply lookup_insert_eq.
Qed.

Lemma lookup_js_set_ne {V : Type} (key k : string) (v : V) (obj : gmap string V) :
  key <> k -> js_set key v obj !! k = obj !! k.
Proof.
  intros Hk. unfold js_set. case_bool_decide; [done|]. by apply lookup_insert_ne.
Qed.

Lemma lookup_js_set_proto {V : Type} (key : string) (v : V) (obj : gmap string V) :
  js_set key v obj !! "__proto__" = obj !! "__proto__".
Proof.
  unfold js_set. case_bool_decide; [done|]. by apply lookup_insert_ne.
Qed.

Lemma lookup_js_set_Some {V : Type} (key k : string) (v x : V) (obj : gmap string V) :
  js_set key v obj !! k = Some x ->
  (key = k /\ key <> "__proto__" /\ x = v) \/ (obj !! k = Some x).
Proof.
  unfold js_set. case_bool_decide; [by right|].
  rewrite lookup_insert. case_decide; [|by right].
  intros [= <-]. by left.
Qed.

Lemma js_set_keeps {V : Type} (key k : string) (v : V) (obj : gmap string V) :
  is_Some (obj !! k) -> is_Some (js_set key v obj !! k).
Proof.
  intros Hk. unfold js_set. case_bool_decide; [done|].
  rewrite lookup_insert. case_decide; [by eexists | done].
Qed.

Lemma RedGreen_body_inv (assets : string -> bool)
    (previousRankings : gmap string Z) (previousColors : gmap string string)
    (collections : list Collection) (i : nat) (a a' : Acc) :
  RedGreen.body assets previousRankings previousColors collections i a = Next a' ->
  exists c color image,
    collections !! i = Some c /\
    Index_color previousRankings previousColors i c = Some color /\
    Index_image assets previousRankings previousColors i c = Some image /\
    a' = mkAcc (js_set (prop_key (id c)) (Z.of_nat i + 1) (newPreviousRankings a))
           (js_set (prop_key (id c)) color (newPreviousColors a))
           (<[Z.of_nat i + 1 := image]> (imagesDir a)).
Proof.
  unfold RedGreen.body, Index_image, Index_color. cbv zeta.
  destruct (collections !! i) as [c|]; [|discriminate].
  intros Hb. destruct (colorAgainst _ _ _) as [color|] eqn:Hcol in Hb;
    [|discriminate].
  destruct (generateImage _ _ _ _ _ _) as [image|] eqn:Hg in Hb; [|discriminate].
  injection Hb as <-. exists c, color, image.
  split; [done|]. split; [exact Hcol|]. rewrite Hcol.
  split; [exact Hg | reflexivity].
Qed.

Lemma generateImage_rank (assets : string -> bool) (rank : Z) (name : string)
    (floorPrice volume : decimal) (color : string) (image : Image) :
  generateImage assets rank name floorPrice volume color = Some image ->
  img_rank image = rank /\ img_color image = color /\
  img_name image = String.substring 0 20 name.
Proof.
  unfold generateImage. destruct (assets color); [|discriminate].
  intros [= <-]. done.
Qed.

Lemma RedGreen_loop_inv (assets : string -> bool)
    (previousRankings : gmap string Z) (previousColors : gmap string string)
    (collections : list Collection) (count start : nat) (a a' : Acc) :
  for_range (RedGreen.body assets previousRankings previousColors collections)
    start count a = Next a' ->
  (forall i, (start <= i < start + count)%nat ->
     exists c image,
       collections !! i = Some c /\
       imagesDir a' !! (Z.of_nat i + 1) = Some image /\
       img_rank image = Z.of_nat i + 1 /\
       (prop_key (id c) <> "__proto__" ->
        is_Some (newPreviousRankings a' !! prop_key (id c)) /\
        is_Some (newPreviousColors a' !! prop_key (id c)))) /\
  (forall t, ~ (Z.of_nat start + 1 <= t <= Z.of_nat (start + count)) ->
     imagesDir a' !! t = imagesDir a !! t) /\
  (forall k, is_Some (newPreviousRankings a !! k) ->
     is_Some (newPreviousRankings a' !! k)) /\
  (forall k, is_Some (newPreviousColors a !! k) ->
     is_Some (newPreviousColors a' !! k)).
Proof.
  revert start a. induction count as [|count IH]; intros start a Hloop.
  - simpl in Hloop. injection Hloop as <-.
    split; [intros i Hi; lia | done].
  - simpl in Hloop.
    destruct (RedGreen.body _ _ _ _ start a) as [a1|a1] eqn:Hb; [|discriminate].
    apply RedGreen_body_inv in Hb as (c & color & image & Hc & Hcolor & Himg & ->).
    destruct (IH _ _ Hloop) as (Hin & Hout & Hr & Hcol). simpl in *.
    split; [|split; [|split]].
    + intros i Hi. destruct (decide (i = start)) as [->|Hne]; [|apply Hin; lia].
      exists c, image. split; [done|].
      rewrite Hout by lia. rewrite lookup_insert_eq.
      unfold Index_image in Himg. rewrite Hcolor in Himg.
      apply generateImage_rank in Himg as (? & _).
      split; [done|]. split; [done|]. intros Hkey.
      split; [apply Hr | apply Hcol]; rewrite lookup_js_set_eq by done; by eexists.
    + intros t Ht. rewrite Hout by lia. apply lookup_insert_ne. lia.
    + intros k Hk. apply Hr. by apply js_set_keeps.
    + intros k Hk. apply Hcol. by apply js_set_keeps.
Qed.

(** C5 on working_redGreen.js.  Its loop always runs to position 99: on a
    fetch of fewer than a hundred collections it reads a position past the end
    of the list and the cycle crashes, with previous_rankings.json and
    previous_colors.json left as they were. *)
Theorem RedGreen_short_list_crashes (assets : string -> bool)
    (collections : list Collection) (st : RedGreen.State) :
  (1 <= length collections < 100)%nat ->
  exists st',
    RedGreen.updateRankings assets collections st = Crashed st' /\
    RedGreen.rankings_file st' = RedGreen.rankings_file st /\
    RedGreen.colors_file st' = RedGreen.colors_file st.
Proof.
  intros Hlen. unfold RedGreen.updateRankings.
  destruct (Nat.eqb_spec (length collections) 0); [lia|].
  match goal with
  | |- context [for_range ?b ?s ?c ?a] =>
      destruct (for_range_runs_out b c s a (length collections))
        as [acc ->]; [lia | | by eexists]
  end.
  intros acc. unfold RedGreen.body.
  rewrite lookup_ge_None_2 by lia. by eexists.
Qed.

Lemma RedGreen_short_list_crashes_witness :
  exists st',
    RedGreen.updateRankings all_assets (top 3) RedGreen_fresh = Crashed st' /\
    RedGreen.rankings_file st' = RedGreen.rankings_file RedGreen_fresh /\
    RedGreen.colors_file st' = RedGreen.colors_file RedGreen_fresh.
Proof.
  apply (RedGreen_short_list_crashes all_assets (top 3) RedGreen_fresh).
  vm_compute. lia.
Defined.

(** C8 on working_redGreen.js.  Its loop has no guard on the identity: in a
    completed cycle every one of the hundred records, whatever its [id], gets
    its image drawn and an entry in both persisted dictionaries, a record
    without [id] under the key "undefined". *)
Theorem RedGreen_processes_unidentified (assets : string -> bool)
    (collections : list Collection) (st st' : RedGreen.State)
    (i : nat) (c : Collection) :
  RedGreen.updateRankings assets collections st = Completed st' ->
  (i < 100)%nat -> collections !! i = Some c -> id c = None ->
  exists rankings colors image,
    RedGreen.rankings_file st' = Some rankings /\
    RedGreen.colors_file st' = Some colors /\
    is_Some (rankings !! "undefined") /\
    is_Some (colors !! "undefined") /\
    RedGreen.images st' !! (Z.of_nat i + 1) = Some image /\
    img_rank image = Z.of_nat i + 1.
Proof.
  unfold RedGreen.updateRankings.
  destruct (length collections =? 0)%nat; [discriminate|].
  destruct (for_range _ _ _ _) as [a|a] eqn:Hloop; [|discriminate].
  intros [= <-] Hi Hc Hid. simpl.
  apply RedGreen_loop_inv in Hloop as (Hin & _).
  destruct (Hin i) as (c' & image & Hc' & Himg & Hrank & Hkeys); [lia|].
  assert (c' = c) as -> by congruence. rewrite Hid in Hkeys. simpl in Hkeys.
  destruct Hkeys as [Hr Hcol]; [discriminate|].
  by exists (newPreviousRankings a), (newPreviousColors a), image.
Qed.

Lemma RedGreen_processes_unidentified_witness :
  exists rankings colors image,
    RedGreen.rankings_file
      (final (RedGreen.updateRankings all_assets top_with_nameless RedGreen_fresh))
    = Some rankings /\
    RedGreen.colors_file
      (final (RedGreen.updateRankings all_assets top_with_nameless RedGreen_fresh))
    = Some colors /\
    is_Some (rankings !! "undefined") /\
    is_Some (colors !! "undefined") /\
    RedGreen.images
      (final (RedGreen.updateRankings all_assets top_with_nameless RedGreen_fresh))
      !! (Z.of_nat 1 + 1) = Some image /\
    img_rank image = Z.of_nat 1 + 1.
Proof.
  apply (RedGreen_processes_unidentified all_assets top_with_nameless
           RedGreen_fresh _ 1%nat nameless).
  - vm_compute. reflexivity.
  - lia.
  - vm_compute. reflexivity.
  - reflexivity.
Defined.

(** The cycle of working_redGreen.js at the two inputs: three collections, and
    a hundred of which the second has no identity. *)
Lemma RedGreen_at_failing_inputs :
  (exists st',
     RedGreen.updateRankings all_assets (top 3) RedGreen_fresh = Crashed st' /\
     RedGreen.rankings_file st' = None /\
     img_color <$> RedGreen.images st' !! 3 = Some "green" /\
     RedGreen.images st' !! 4 = None) /\
  (exists st' rankings,
     RedGreen.updateRankings all_assets top_with_nameless RedGreen_fresh
     = Completed st' /\
     RedGreen.rankings_file st' = Some rankings /\
     rankings !! "undefined" = Some 2 /\
     rankings !! "c2" = Some 3 /\
     img_name <$> RedGreen.images st' !! 2 = Some "Nameless").
Proof.
  split.
  - eexists. split; [vm_compute; reflexivity|]. vm_compute. done.
  - eexists. eexists. split; [vm_compute; reflexivity|].
    split; [reflexivity|]. vm_compute. done.
Qed.

(** ** index.js: the guarded loop *)

Lemma Index_loop_S (assets : string -> bool)
    (pr : gmap string Z) (pc : gmap string string)
    (collections : list Collection) (dir : gmap Z Image) (n : nat) :
  Index_loop assets pr pc collections dir (S n)
  = Index.body assets pr pc collections n (Index_loop assets pr pc collections dir n).
Proof. unfold Index_loop. by rewrite seq_S, foldl_snoc. Qed.

Lemma Index_body_skip (assets : string -> bool)
    (pr : gmap string Z) (pc : gmap string string)
    (collections : list Collection) (i : nat) (a : Acc) :
  (forall c, collections !! i = Some c -> ~ identified c) ->
  Index.body assets pr pc collections i a = a.
Proof.
  intros Hskip. unfold Index.body. cbv zeta.
  destruct (collections !! i) as [c|]; [|reflexivity].
  specialize (Hskip c eq_refl). unfold identified in Hskip.
  by destruct (falsy_str (id c)).
Qed.

Lemma Index_body_step (assets : string -> bool)
    (pr : gmap string Z) (pc : gmap string string)
    (collections : list Collection) (i : nat) (a : Acc) (c : Collection) :
  collections !! i = Some c -> identified c ->
  Index.body assets pr pc collections i a
  = mkAcc (js_set (prop_key (id c)) (Z.of_nat i + 1) (newPreviousRankings a))
      (Index_store_color pr pc i c (newPreviousColors a))
      match Index_image assets pr pc i c with
      | Some image => <[Z.of_nat i + 1 := image]> (imagesDir a)
      | None => imagesDir a
      end.
Proof.
  intros Hc Hid. unfold Index.body, Index_store_color, Index_image, Index_color.
  cbv zeta. rewrite Hc, Hid. by destruct (colorAgainst _ _ _).
Qed.

Lemma lookup_Index_store_color_ne (pr : gmap string Z) (pc : gmap string string)
    (i : nat) (c : Collection) (colors : gmap string string) (k : string) :
  prop_key (id c) <> k -> Index_store_color pr pc i c colors !! k = colors !! k.
Proof.
  intros Hk. unfold Index_store_color, js_set_foreign.
  destruct (Index_color pr pc i c); [by apply lookup_js_set_ne|].
  by apply lookup_delete_ne.
Qed.

Lemma lookup_Index_store_color_eq (pr : gmap string Z) (pc : gmap string string)
    (i : nat) (c : Collection) (colors : gmap string string) :
  prop_key (id c) <> "__proto__" ->
  Index_store_color pr pc i c colors !! prop_key (id c) = Index_color pr pc i c.
Proof.
  intros Hk. unfold Index_store_color, js_set_foreign.
  destruct (Index_color pr pc i c); [by apply lookup_js_set_eq|].
  apply lookup_delete_eq.
Qed.

Lemma lookup_Index_store_color_Some (pr : gmap string Z) (pc : gmap string string)
    (i : nat) (c : Collection) (colors : gmap string string) (k color : string) :
  Index_store_color pr pc i c colors !! k = Some color ->
  (prop_key (id c) = k /\ k <> "__proto__" /\ Index_color pr pc i c = Some color) \/
  colors !! k = Some color.
Proof.
  unfold Index_store_color, js_set_foreign.
  destruct (Index_color pr pc i c) as [stored|].
  - intros Hk. apply lookup_js_set_Some in Hk as [(<- & ? & ->)|?]; [by left | by right].
  - rewrite lookup_delete_Some. intros [_ ?]. by right.
Qed.

(** Every position holds an identified record or one the loop passes over. *)
Lemma Index_position (collections : list Collection) (i : nat) :
  (exists c, collections !! i = Some c /\ identified c) \/
  (forall c, collections !! i = Some c -> ~ identified c).
Proof.
  destruct (collections !! i) as [c|]; [|right; intros c; discriminate].
  unfold identified. destruct (falsy_str (id c)) eqn:Hf.
  - right. intros c' [= <-]. by rewrite Hf.
  - left. by exists c.
Qed.

Lemma identified_key (c c' : Collection) :
  identified c -> identified c' -> id c' <> id c ->
  prop_key (id c') <> prop_key (id c).
Proof.
  unfold identified.
  destruct (id c) as [k|], (id c') as [k'|]; simpl; try discriminate.
  intros _ _ Hne ->. by apply Hne.
Qed.

Lemma Index_image_at_other (assets : string -> bool)
    (pr : gmap string Z) (pc : gmap string string)
    (collections : list Collection) (dir : gmap Z Image) (n : nat) (t : Z) :
  t <> Z.of_nat n + 1 ->
  Index_image_at assets pr pc collections dir (S n) t
  = Index_image_at assets pr pc collections dir n t.
Proof.
  intros Ht. unfold Index_image_at. repeat case_decide; first [reflexivity | lia].
Qed.

(** The images directory after [n] iterations, file by file. *)
Lemma Index_loop_image_at (assets : string -> bool)
    (pr : gmap string Z) (pc : gmap string string)
    (collections : list Collection) (dir : gmap Z Image) (n : nat) (t : Z) :
  imagesDir (Index_loop assets pr pc collections dir n) !! t
  = Index_image_at assets pr pc collections dir n t.
Proof.
  induction n as [|n IH].
  - unfold Index_image_at. case_decide; [lia | reflexivity].
  - rewrite Index_loop_S.
    destruct (decide (t = Z.of_nat n + 1)) as [->|Hne].
    + assert (Index_image_at assets pr pc collections dir n (Z.of_nat n + 1)
              = dir !! (Z.of_nat n + 1)) as Hold.
      { unfold Index_image_at. case_decide; [lia | reflexivity]. }
      rewrite Hold in IH. unfold Index_image_at.
      case_decide; [|lia].
      replace (Z.to_nat (Z.of_nat n + 1 - 1)) with n by lia.
      destruct (Index_position collections n) as [(c & Hc & Hid)|Hskip].
      * rewrite (Index_body_step _ _ _ _ _ _ c Hc Hid), Hc, Hid. simpl.
        destruct (Index_image assets pr pc n c); [apply lookup_insert_eq | apply IH].
      * rewrite Index_body_skip by done. rewrite IH.
        destruct (collections !! n) as [c|] eqn:Hc; [|reflexivity].
        specialize (Hskip c eq_refl). unfold identified in Hskip.
        by destruct (falsy_str (id c)).
    + rewrite Index_image_at_other by done. rewrite <- IH.
      destruct (Index_position collections n) as [(c & Hc & Hid)|Hskip].
      * rewrite (Index_body_step _ _ _ _ _ _ c Hc Hid). simpl.
        destruct (Index_image assets pr pc n c); [|reflexivity].
        by apply lookup_insert_ne.
      * by rewrite Index_body_skip.
Qed.

(** Every persisted rank and colour comes from an identified record among the
    first [n], the rank being its position plus one; nothing is ever stored
    under [__proto__]. *)
Lemma Index_loop_sound (assets : string -> bool)
    (pr : gmap string Z) (pc : gmap string string)
    (collections : list Collection) (dir : gmap Z Image) (n : nat) (k : string) :
  (forall r, newPreviousRankings (Index_loop assets pr pc collections dir n) !! k
             = Some r ->
     exists i c, (i < n)%nat /\ collections !! i = Some c /\ identified c /\
                 id c = Some k /\ r = Z.of_nat i + 1 /\ k <> "__proto__") /\
  (forall color, newPreviousColors (Index_loop assets pr pc collections dir n) !! k
                 = Some color ->
     exists i c, (i < n)%nat /\ collections !! i = Some c /\ identified c /\
                 id c = Some k /\ Index_color pr pc i c = Some color /\
                 k <> "__proto__").
Proof.
  induction n as [|n [IHr IHc]];
    [split; intros x Hx; cbn in Hx; by rewrite lookup_empty in Hx|].
  rewrite Index_loop_S.
  destruct (Index_position collections n) as [(c & Hc & Hid)|Hskip].
  - rewrite (Index_body_step _ _ _ _ _ _ c Hc Hid). simpl.
    assert (prop_key (id c) = k -> id c = Some k) as Hkey.
    { unfold identified in Hid. destruct (id c); [by intros <-|done]. }
    split; intros x Hx.
    + apply lookup_js_set_Some in Hx as [(Hk & Hp & ->)|Hx].
      * exists n, c. subst k. repeat split; auto.
      * destruct (IHr x Hx) as (i & c' & ? & ?). exists i, c'. split; [lia | done].
    + apply lookup_Index_store_color_Some in Hx as [(Hk & Hp & Hcol)|Hx].
      * exists n, c. repeat split; auto.
      * destruct (IHc x Hx) as (i & c' & ? & ?). exists i, c'. split; [lia | done].
  - rewrite Index_body_skip by done.
    split; intros x Hx.
    + destruct (IHr x Hx) as (i & c' & ? & ?). exists i, c'. split; [lia | done].
    + destruct (IHc x Hx) as (i & c' & ? & ?). exists i, c'. split; [lia | done].
Qed.

(** An identified record whose identity does not come again later in the list
    is persisted with its position plus one, and with its colour when that is
    a string. *)
Lemma Index_loop_rank (assets : string -> bool)
    (pr : gmap string Z) (pc : gmap string string)
    (collections : list Collection) (dir : gmap Z Image) (n i : nat) (c : Collection) :
  (i < n)%nat -> collections !! i = Some c -> identified c ->
  prop_key (id c) <> "__proto__" ->
  (forall j c', (i < j < n)%nat -> collections !! j = Some c' -> id c' <> id c) ->
  newPreviousRankings (Index_loop assets pr pc collections dir n) !! prop_key (id c)
  = Some (Z.of_nat i + 1) /\
  newPreviousColors (Index_loop assets pr pc collections dir n) !! prop_key (id c)
  = Index_color pr pc i c.
Proof.
  induction n as [|n IH]; intros Hi Hc Hid Hproto Hlast; [lia|].
  rewrite Index_loop_S.
  destruct (decide (i = n)) as [->|Hne].
  - rewrite (Index_body_step _ _ _ _ _ _ c Hc Hid). simpl.
    by rewrite lookup_js_set_eq, lookup_Index_store_color_eq.
  - destruct IH as [IHr IHc]; [lia | done | done | done | |].
    { intros j c' Hj. apply Hlast. lia. }
    destruct (Index_position collections n) as [(c' & Hc' & Hid')|Hskip].
    + rewrite (Index_body_step _ _ _ _ _ _ c' Hc' Hid'). simpl.
      assert (prop_key (id c') <> prop_key (id c)) as Hk.
      { apply identified_key; [done | done |]. apply (Hlast n c'); [lia | done]. }
      by rewrite lookup_js_set_ne, lookup_Index_store_color_ne.
    + by rewrite Index_body_skip.
Qed.

(** An identified record is persisted with the colour that every record of
    its identity resolves to. *)
Lemma Index_loop_color_present (assets : string -> bool)
    (pr : gmap string Z) (pc : gmap string string)
    (collections : list Collection) (dir : gmap Z Image) (n i : nat) (c : Collection)
    (color : string) :
  (i < n)%nat -> collections !! i = Some c -> identified c ->
  prop_key (id c) <> "__proto__" ->
  (forall j c', (j < n)%nat -> collections !! j = Some c' ->
     prop_key (id c') = prop_key (id c) -> Index_color pr pc j c' = Some color) ->
  newPreviousColors (Index_loop assets pr pc collections dir n) !! prop_key (id c)
  = Some color.
Proof.
  induction n as [|n IH]; intros Hi Hc Hid Hproto Hall; [lia|].
  rewrite Index_loop_S.
  destruct (Index_position collections n) as [(c' & Hc' & Hid')|Hskip].
  - rewrite (Index_body_step _ _ _ _ _ _ c' Hc' Hid'). simpl.
    destruct (decide (prop_key (id c') = prop_key (id c))) as [Hk|Hk].
    + rewrite <- Hk. rewrite lookup_Index_store_color_eq by congruence.
      apply (Hall n c'); [lia | done | done].
    + rewrite lookup_Index_store_color_ne by done.
      apply IH; try done.
      * destruct (decide (i = n)) as [->|]; [|lia]. congruence.
      * intros j c2 Hj. apply Hall. lia.
  - rewrite Index_body_skip by done.
    apply IH; try done.
    + destruct (decide (i = n)) as [->|]; [|lia]. by destruct (Hskip c Hc).
    + intros j c2 Hj. apply Hall. lia.
Qed.

Lemma Index_cycle (assets : string -> bool) (collections : list Collection)
    (st : Index.State) :
  collections <> [] ->
  Index.updateRankings assets collections st
  = Completed
      (Index.mkState
         (Some (newPreviousRankings
                  (Index_loop assets (load_object (Index.rankings_file st))
                     (load_object (Index.colors_file st)) collections
                     (Index.images st) (Nat.min (length collections) 100))))
         (Some (newPreviousColors
                  (Index_loop assets (load_object (Index.rankings_file st))
                     (load_object (Index.colors_file st)) collections
                     (Index.images st) (Nat.min (length collections) 100))))
         (imagesDir
            (Index_loop assets (load_object (Index.rankings_file st))
               (load_object (Index.colors_file st)) collections
               (Index.images st) (Nat.min (length collections) 100)))
         collections).
Proof.
  intros Hne. unfold Index.updateRankings.
  destruct (Nat.eqb_spec (length collections) 0) as [H0|H0]; [|reflexivity].
  by apply length_zero_iff_nil in H0.
Qed.

(** index.js on a short list: with [n] identified records of distinct
    identities, none of them [__proto__], 1 <= n < 100, the cycle completes,
    the record at position [i] is persisted with rank [i + 1], no other rank
    is persisted, and no image of a rank above [n] is touched. *)
Lemma Index_short_list (assets : string -> bool) (collections : list Collection)
    (st : Index.State) :
  (1 <= length collections < 100)%nat ->
  (forall c, c ∈ collections -> identified c /\ prop_key (id c) <> "__proto__") ->
  NoDup (id <$> collections) ->
  exists st' rankings,
    Index.updateRankings assets collections st = Completed st' /\
    Index.latestCollections st' = collections /\
    Index.rankings_file st' = Some rankings /\
    (forall i c, collections !! i = Some c ->
       rankings !! prop_key (id c) = Some (Z.of_nat i + 1)) /\
    (forall k r, rankings !! k = Some r ->
       exists i c, collections !! i = Some c /\ id c = Some k /\ r = Z.of_nat i + 1) /\
    (forall t, Z.of_nat (length collections) < t ->
       Index.images st' !! t = Index.images st !! t).
Proof.
  intros Hlen Hid Hdup.
  assert (collections <> []) as Hne by (intros ->; simpl in Hlen; lia).
  rewrite (Index_cycle assets collections st Hne).
  replace (Nat.min (length collections) 100) with (length collections) by lia.
  eexists. eexists. split; [reflexivity|]. simpl.
  split; [reflexivity|]. split; [reflexivity|]. split; [|split].
  - intros i c Hc.
    assert (c ∈ collections) as Hin by (apply list_elem_of_lookup; eauto).
    eapply Index_loop_rank;
      [by eapply lookup_lt_Some | done | by apply Hid | by apply Hid |].
    + intros j c' Hj Hc' Heq.
      assert (i = j); [|lia].
      eapply (NoDup_lookup (id <$> collections)); [done | |].
      * by rewrite list_lookup_fmap, Hc.
      * rewrite list_lookup_fmap, Hc'. simpl. by rewrite Heq.
  - intros k r Hr. apply Index_loop_sound in Hr as (i & c & _ & ? & _ & ? & ? & _).
    by exists i, c.
  - intros t Ht. rewrite Index_loop_image_at. unfold Index_image_at.
    case_decide; [lia | reflexivity].
Qed.

(** index.js on a record without identity: the cycle completes, the record's
    rank is persisted for no key, the image of its rank is left as it was, and
    every identified record is still handled, its image drawn and its rank
    persisted (under every key but [__proto__]). *)
Lemma Index_skips_unidentified (assets : string -> bool)
    (collections : list Collection) (st : Index.State) (i : nat) (c : Collection) :
  collections !! i = Some c -> ~ identified c ->
  exists st' rankings,
    Index.updateRankings assets collections st = Completed st' /\
    Index.rankings_file st' = Some rankings /\
    (forall k, rankings !! k <> Some (Z.of_nat i + 1)) /\
    Index.images st' !! (Z.of_nat i + 1) = Index.images st !! (Z.of_nat i + 1) /\
    (forall j c', (j < Nat.min (length collections) 100)%nat ->
       collections !! j = Some c' -> identified c' ->
       (prop_key (id c') <> "__proto__" -> is_Some (rankings !! prop_key (id c'))) /\
       (forall image,
          Index_image assets (load_object (Index.rankings_file st))
            (load_object (Index.colors_file st)) j c' = Some image ->
          Index.images st' !! (Z.of_nat j + 1) = Some image)).
Proof.
  intros Hc Hnid.
  assert (collections <> []) as Hne by (intros ->; discriminate).
  rewrite (Index_cycle assets collections st Hne).
  eexists. eexists. split; [reflexivity|]. simpl.
  split; [reflexivity|]. split; [|split].
  - intros k Hr.
    apply Index_loop_sound in Hr as (i' & c' & _ & Hc' & Hid' & _ & Hr & _).
    assert (i' = i) as -> by lia. congruence.
  - rewrite Index_loop_image_at. unfold Index_image_at.
    case_decide; [|reflexivity].
    replace (Z.to_nat (Z.of_nat i + 1 - 1)) with i by lia. rewrite Hc.
    unfold identified in Hnid. by destruct (falsy_str (id c)).
  - intros j c' Hj Hc' Hid'. split.
    + intros Hproto. set (n := Nat.min (length collections) 100) in *.
      clearbody n. induction n as [|n IH]; [lia|].
      rewrite Index_loop_S.
      destruct (decide (j = n)) as [->|Hjn].
      * rewrite (Index_body_step _ _ _ _ _ _ c' Hc' Hid'). simpl.
        rewrite lookup_js_set_eq by done. by eexists.
      * destruct (Index_position collections n) as [(c2 & Hc2 & Hid2)|Hskip].
        -- rewrite (Index_body_step _ _ _ _ _ _ c2 Hc2 Hid2). simpl.
           apply js_set_keeps. apply IH. lia.
        -- rewrite Index_body_skip by done. apply IH. lia.
    + intros image Himg. rewrite Index_loop_image_at. unfold Index_image_at.
      case_decide; [|lia].
      replace (Z.to_nat (Z.of_nat j + 1 - 1)) with j by lia.
      by rewrite Hc', Hid', Himg.
Qed.

(** The first cycle of index.js over three collections and no prior state:
    the persisted mapping is a:1, b:2, c:3, all three moved up and are green,
    and the images of ranks 1 to 3 are the only ones written. *)
Lemma Index_first_cycle :
  exists st',
    Index.updateRankings all_assets abc Index_fresh = Completed st' /\
    Index.rankings_file st' = Some (<["a" := 1]> (<["b" := 2]> (<["c" := 3]> ∅))) /\
    ((fun k => stored_color k st') <$> ["a"; "b"; "c"])
    = [Some "green"; Some "green"; Some "green"] /\
    ((fun t => img_name <$> Index.images st' !! t) <$> [1; 2; 3; 4])
    = [Some "Unknown"; Some "Unknown"; Some "Unknown"; None].
Proof.
  eexists. split; [vm_compute; reflexivity|].
  split; [vm_compute; reflexivity|]. split; vm_compute; reflexivity.
Qed.

(** ** Lost reference state *)

Lemma rankMovement_absent (currentRank : Z) :
  currentRank <= 100 -> rankMovement currentRank None = up.
Proof.
  intros H. unfold rankMovement. simpl.
  destruct (Z.ltb_spec currentRank 101); [reflexivity | lia].
Qed.

Lemma movementAgainst_absent (reference : gmap string Z) (key : string)
    (currentRank : Z) :
  currentRank <= 100 -> js_get reference key = Absent ->
  movementAgainst reference key currentRank = up.
Proof.
  intros H Habs. unfold movementAgainst. rewrite Habs.
  by apply rankMovement_absent.
Qed.

Lemma js_get_empty_ordinary {V : Type} (key : string) :
  inherited key = false -> js_get (∅ : gmap string V) key = Absent.
Proof. intros H. apply js_get_Absent. split; [apply lookup_empty | done]. Qed.

(** With no reference ranks, every record of an ordinary identity is green. *)
Lemma Index_color_lost (pc : gmap string string) (i : nat) (c : Collection) :
  (i < 100)%nat -> inherited (prop_key (id c)) = false ->
  Index_color ∅ pc i c = Some "green".
Proof.
  intros Hi Hord. unfold Index_color.
  rewrite movementAgainst_absent; [|lia|by apply js_get_empty_ordinary].
  unfold colorAgainst. by destruct (js_get pc (prop_key (id c))).
Qed.

Lemma inherited_proto (key : string) : inherited key = false -> key <> "__proto__".
Proof. intros H ->. vm_compute in H. discriminate. Qed.

(** C3, as the code has it.  For a current rank in 1..100: a collection that
    a reference state does not provide, neither as an entry nor as a member
    every object inherits, resolves to up, in the last-cycle variants and in
    the rolling-history variant alike.  When previous_rankings.json is
    missing, unreadable or empty, index.js completes its cycle, and every
    identified record among the first hundred whose identity is not the name
    of an inherited member moved up, is persisted green, and, when the green
    asset loads, has the image of its rank drawn green; no ordinary identity
    is persisted with another colour.  When rankings_history.json is missing,
    unreadable or empty, 24hr_check.js finds no reference snapshot at all: in
    a completed cycle every movement is same, and every image is drawn from
    the orange asset. *)
Theorem lost_state_movement (currentRank : Z) :
  1 <= currentRank <= 100 ->
  (forall (reference : gmap string Z) (c : Collection),
     js_get reference (prop_key (id c)) = Absent ->
     movementAgainst reference (prop_key (id c)) currentRank = up /\
     Check24.movementSince (Some reference) currentRank c = up) /\
  (forall assets collections st,
     load_object (Index.rankings_file st) = ∅ -> collections <> [] ->
     exists st',
       Index.updateRankings assets collections st = Completed st' /\
       (forall key, inherited key = false ->
          movementAgainst (load_object (Index.rankings_file st)) key currentRank
          = up) /\
       (forall key color, inherited key = false ->
          stored_color key st' = Some color -> color = "green") /\
       (forall i c, (i < Nat.min (length collections) 100)%nat ->
          collections !! i = Some c -> identified c ->
          inherited (prop_key (id c)) = false ->
          movementAgainst (load_object (Index.rankings_file st))
            (prop_key (id c)) (Z.of_nat i + 1) = up /\
          stored_color (prop_key (id c)) st' = Some "green" /\
          (assets "green" = true ->
           exists image,
             Index.images st' !! (Z.of_nat i + 1) = Some image /\
             img_rank image = Z.of_nat i + 1 /\ img_color image = "green"))) /\
  (forall assets now collections st st',
     load_array (Check24.history_file st) = [] ->
     Check24.updateRankings assets now collections st = Completed st' ->
     forall i c, (i < 100)%nat -> collections !! i = Some c ->
       Check24.movementSince
         (Check24.getPreviousRankings [] (now - 24 * 3600)) (Z.of_nat i + 1) c
       = same /\
       exists image,
         Check24.images st' !! (Z.of_nat i + 1) = Some image /\
         img_color image = "orange").
Proof.
  intros Hrank. split; [|split].
  - intros reference c Habs. unfold Check24.movementSince.
    split; apply movementAgainst_absent; first [lia | done].
  - intros assets collections st Hnone Hne.
    rewrite (Index_cycle assets collections st Hne). eexists.
    split; [reflexivity|]. rewrite Hnone. simpl. split; [|split].
    + intros key Hord. apply movementAgainst_absent; [lia|].
      by apply js_get_empty_ordinary.
    + intros key color Hord Hcol. unfold stored_color in Hcol. simpl in Hcol.
      apply Index_loop_sound in Hcol as (i & c & Hi & _ & _ & Hk & Hcol & _).
      rewrite Index_color_lost in Hcol; [congruence | lia |].
      by rewrite Hk.
    + intros i c Hi Hc Hid Hord. split; [|split].
      * apply movementAgainst_absent; [lia | by apply js_get_empty_ordinary].
      * unfold stored_color. simpl.
        eapply Index_loop_color_present; [exact Hi | exact Hc | exact Hid | |].
        -- by apply inherited_proto.
        -- intros j c' Hj _ Hk. apply Index_color_lost; [lia|]. by rewrite Hk.
      * intros Hgreen. rewrite Index_loop_image_at. unfold Index_image_at.
        case_decide; [|lia].
        replace (Z.to_nat (Z.of_nat i + 1 - 1)) with i by lia.
        rewrite Hc, Hid. unfold Index_image.
        rewrite Index_color_lost by (done || lia).
        unfold generateImage. rewrite Hgreen. eexists. split; [reflexivity|].
        done.
  - intros assets now collections st st' Hnone.
    unfold Check24.updateRankings. rewrite Hnone.
    destruct (length collections =? 0)%nat; [discriminate|].
    destruct (for_range _ _ _ _) as [dir|dir] eqn:Hloop; [|discriminate].
    intros [= <-] i c Hi Hc. split; [reflexivity|]. simpl.
    apply Check24_loop_images in Hloop as [Hin _].
    destruct (Hin i) as (c' & image & Hc' & Himg & _ & Hcolor); [lia|].
    exists image. split; [done|]. rewrite Hcolor. reflexivity.
Qed.

Lemma lost_state_movement_witness :
  (movementAgainst ∅ (prop_key (id (sample 7))) 2 = up /\
   Check24.movementSince (Some ∅) 2 (sample 7) = up) /\
  (exists st',
     Index.updateRankings all_assets abc Index_fresh = Completed st' /\
     movementAgainst (load_object (Index.rankings_file Index_fresh)) "b" 2 = up /\
     stored_color "b" st' = Some "green" /\
     exists image,
       Index.images st' !! 2 = Some image /\
       img_rank image = 2 /\ img_color image = "green") /\
  (exists st',
     Check24.updateRankings all_assets noon (top 100) Check24_fresh = Completed st' /\
     Check24.movementSince
       (Check24.getPreviousRankings [] (noon - 24 * 3600)) 1 (sample 0) = same /\
     exists image,
       Check24.images st' !! 1 = Some image /\ img_color image = "orange").
Proof.
  assert (1 <= 2 <= 100) as Hrank by lia.
  destruct (lost_state_movement 2 Hrank) as (Habsent & Hindex & Hcheck).
  split; [|split].
  - apply (Habsent ∅ (sample 7)). reflexivity.
  - destruct (Hindex all_assets abc Index_fresh) as (st' & Hrun & _ & _ & Hat);
      [reflexivity | discriminate |].
    destruct (Hat 1%nat (mkCollection (Some "b") None None None))
      as (Hup & Hgreen & Himage); [simpl; lia | reflexivity .. |].
    exists st'. split; [exact Hrun|]. split; [exact Hup|]. split; [exact Hgreen|].
    by apply Himage.
  - exists (final (Check24.updateRankings all_assets noon (top 100) Check24_fresh)).
    assert (Check24.updateRankings all_assets noon (top 100) Check24_fresh
            = Completed
                (final (Check24.updateRankings all_assets noon (top 100)
                          Check24_fresh))) as Hrun by (vm_compute; reflexivity).
    split; [exact Hrun|].
    assert (0 < 100)%nat as Hfirst by lia.
    exact (Hcheck all_assets noon (top 100) Check24_fresh _ eq_refl Hrun
             0%nat (sample 0) Hfirst eq_refl).
Defined.

(** C3, as stated, fails for 24hr_check.js: with no history file, a cycle over
    a hundred collections completes, and the first collection is classified
    same, not up; its image is the orange one. *)
Lemma lost_history_is_same :
  Check24.history_file Check24_fresh = None /\
  exists st',
    Check24.updateRankings all_assets noon (top 100) Check24_fresh = Completed st' /\
    Check24.movementSince
      (Check24.getPreviousRankings [] (noon - 24 * 3600)) 1 (sample 0) = same /\
    Check24.movementSince
      (Check24.getPreviousRankings [] (noon - 24 * 3600)) 1 (sample 0) <> up /\
    img_color <$> Check24.images st' !! 1 = Some "orange".
Proof.
  split; [reflexivity|]. eexists.
  split; [vm_compute; reflexivity|].
  split; [reflexivity|]. split; [discriminate|]. vm_compute. reflexivity.
Qed.

(** ** Retrying a request *)

Lemma waits_snoc (delay : Z) (i k : nat) :
  waits delay i (S k) = waits delay i k ++ [delay * 2 ^ Z.of_nat (i + k)].
Proof. unfold waits. by rewrite seq_S, fmap_app. Qed.

Lemma waits_cons (delay : Z) (i k : nat) :
  waits delay i (S k) = delay * 2 ^ Z.of_nat i :: waits delay (S i) k.
Proof. reflexivity. Qed.

(** Transient failures that are not the last iteration are each followed by a
    wait and another attempt. *)
Lemma fetchWithRetry_from_skip (net : Network) (url : string) (retries : nat)
    (delay : Z) (k i remaining : nat) (w : World) :
  (forall j, (j < k)%nat -> transient (net url (calls w + j)%nat)) ->
  (i + k < retries)%nat -> (k <= remaining)%nat ->
  fetchWithRetry_from net url retries delay i remaining w
  = fetchWithRetry_from net url retries delay (i + k) (remaining - k)
      (mkWorld (calls w + k) (sleeps w ++ waits delay i k)).
Proof.
  revert i remaining w. induction k as [|k IH]; intros i remaining w Htr Hi Hk.
  - rewrite !Nat.add_0_r, Nat.sub_0_r. unfold waits. simpl.
    rewrite app_nil_r. by destruct w.
  - destruct remaining as [|remaining]; [lia|].
    assert (fetchWithRetry_from net url retries delay i (S remaining) w
            = fetchWithRetry_from net url retries delay (S i) remaining
                (slept (delay * 2 ^ Z.of_nat i) (called w))) as ->.
    { simpl. specialize (Htr 0%nat ltac:(lia)). rewrite Nat.add_0_r in Htr.
      destruct Htr as [->|(r & -> & Hr)].
      - destruct (Nat.eqb_spec i (retries - 1)); [lia | reflexivity].
      - rewrite Hr. reflexivity. }
    rewrite IH; [| |lia|lia].
    + simpl. rewrite waits_cons, <- app_assoc. simpl.
      repeat f_equal; lia.
    + intros j Hj. simpl. replace (S (calls w + j)) with (calls w + S j)%nat by lia.
      apply Htr. lia.
Qed.

(** Every call made, every wait slept and the kind of result, whatever the
    network does. *)
Lemma fetchWithRetry_from_bounds (net : Network) (url : string) (retries : nat)
    (delay : Z) (remaining i : nat) (w : World) :
  exists attempts pauses,
    (attempts <= remaining)%nat /\
    calls (snd (fetchWithRetry_from net url retries delay i remaining w))
    = (calls w + attempts)%nat /\
    sleeps (snd (fetchWithRetry_from net url retries delay i remaining w))
    = sleeps w ++ waits delay i pauses /\
    match fst (fetchWithRetry_from net url retries delay i remaining w) with
    | Resp r =>
        S pauses = attempts /\ response_ok r = true /\
        net url (calls w + pauses)%nat = Answered r
    | Null => S pauses = attempts
    | Undefined => pauses = attempts /\ attempts = remaining
    end.
Proof.
  revert i w. induction remaining as [|remaining IH]; intros i w.
  - exists 0%nat, 0%nat. simpl. rewrite Nat.add_0_r, app_nil_r. done.
  - assert (forall w1, w1 = slept (delay * 2 ^ Z.of_nat i) (called w) ->
      exists attempts pauses,
        (attempts <= S remaining)%nat /\
        calls (snd (fetchWithRetry_from net url retries delay (S i) remaining w1))
        = (calls w + attempts)%nat /\
        sleeps (snd (fetchWithRetry_from net url retries delay (S i) remaining w1))
        = sleeps w ++ waits delay i pauses /\
        match fst (fetchWithRetry_from net url retries delay (S i) remaining w1) with
        | Resp r =>
            S pauses = attempts /\ response_ok r = true /\
            net url (calls w + pauses)%nat = Answered r
        | Null => S pauses = attempts
        | Undefined => pauses = attempts /\ attempts = S remaining
        end) as Hnext.
    { intros w1 ->. destruct (IH (S i) (slept (delay * 2 ^ Z.of_nat i) (called w)))
        as (a & p & Ha & Hc & Hs & Hres).
      exists (S a), (S p). split; [lia|]. split; [rewrite Hc; simpl; lia|].
      split; [rewrite Hs; simpl; by rewrite waits_cons, <- app_assoc|].
      simpl in Hres. destruct (fst _) as [r| |].
      - destruct Hres as (? & ? & Hn). split; [lia|]. split; [done|].
        rewrite <- Hn. f_equal. lia.
      - lia.
      - lia. }
    simpl. destruct (net url (calls w)) as [r|] eqn:Hnet.
    + destruct (Z.eqb_spec (status r) 429); [by apply Hnext|].
      destruct (response_ok r) eqn:Hok; simpl.
      * exists 1%nat, 0%nat. simpl. rewrite app_nil_r, Nat.add_0_r.
        repeat split; first [lia | done].
      * exists 1%nat, 0%nat. simpl. rewrite app_nil_r. repeat split; lia.
    + destruct (i =? retries - 1)%nat; [|by apply Hnext].
      exists 1%nat, 0%nat. simpl. rewrite app_nil_r. repeat split; lia.
Qed.

(** X1.  [fetchWithRetry] returns the first 2xx answer that comes after [k]
    transient failures (rejections or 429s), for [k] below the number of
    retries: it has then made [k + 1] calls and waited [delay], [2 delay],
    ..., [2^(k-1) delay] in between. *)
Theorem fetchWithRetry_succeeds_after (net : Network) (url : string)
    (retries : nat) (delay : Z) (w : World) (k : nat) (r : HttpResponse) :
  (k < retries)%nat ->
  (forall j, (j < k)%nat -> transient (net url (calls w + j)%nat)) ->
  net url (calls w + k)%nat = Answered r ->
  response_ok r = true ->
  fetchWithRetry net url retries delay w
  = (Resp r, mkWorld (calls w + k + 1) (sleeps w ++ waits delay 0 k)).
Proof.
  intros Hk Htr Hnet Hok. unfold fetchWithRetry.
  rewrite (fetchWithRetry_from_skip net url retries delay k 0 retries w) by (done || lia).
  destruct (retries - k)%nat as [|rest] eqn:Hrest; [lia|]. simpl.
  rewrite Hnet.
  assert (status r <> 429) as H429.
  { unfold response_ok in Hok. apply andb_true_iff in Hok as [_ Hle].
    apply Z.leb_le in Hle. lia. }
  destruct (Z.eqb_spec (status r) 429); [done|]. rewrite Hok. simpl.
  unfold called. simpl. repeat f_equal. lia.
Qed.

Lemma fetchWithRetry_succeeds_after_witness :
  fetchWithRetry
    (fun _ n => match n with
                | 2%nat => Answered (mkResponse 200 (Some (mkPage (Some (top 2)) None)))
                | 1%nat => Rejected
                | _ => Answered (mkResponse 429 None)
                end)
    "u" 3 1000 dawn
  = (Resp (mkResponse 200 (Some (mkPage (Some (top 2)) None))),
     mkWorld (calls dawn + 2 + 1) (sleeps dawn ++ waits 1000 0 2)).
Proof.
  apply (fetchWithRetry_succeeds_after _ "u" 3 1000 dawn 2
           (mkResponse 200 (Some (mkPage (Some (top 2)) None)))).
  - lia.
  - intros [|[|j]] Hj; [right; by eexists | by left | lia].
  - reflexivity.
  - reflexivity.
Defined.

(** X2.  An HTTP error other than 429 is never retried: whatever number of
    retries is left, the answer ends the loop with [null], without a wait
    after it. *)
Theorem fetchWithRetry_http_error_final (net : Network) (url : string)
    (retries : nat) (delay : Z) (w : World) (k : nat) (r : HttpResponse) :
  (k < retries)%nat ->
  (forall j, (j < k)%nat -> transient (net url (calls w + j)%nat)) ->
  net url (calls w + k)%nat = Answered r ->
  status r <> 429 -> response_ok r = false ->
  fetchWithRetry net url retries delay w
  = (Null, mkWorld (calls w + k + 1) (sleeps w ++ waits delay 0 k)).
Proof.
  intros Hk Htr Hnet H429 Hok. unfold fetchWithRetry.
  rewrite (fetchWithRetry_from_skip net url retries delay k 0 retries w) by (done || lia).
  destruct (retries - k)%nat as [|rest] eqn:Hrest; [lia|]. simpl.
  rewrite Hnet. destruct (Z.eqb_spec (status r) 429); [done|]. rewrite Hok. simpl.
  unfold called. simpl. repeat f_equal. lia.
Qed.

Lemma fetchWithRetry_http_error_final_witness :
  fetchWithRetry (fun _ _ => Answered (mkResponse 503 None))
    "u" 3 1000 dawn
  = (Null, mkWorld (calls dawn + 0 + 1) (sleeps dawn ++ waits 1000 0 0)).
Proof.
  apply (fetchWithRetry_http_error_final _ "u" 3 1000 dawn 0
           (mkResponse 503 None)).
  - lia.
  - intros j Hj. lia.
  - reflexivity.
  - simpl. lia.
  - reflexivity.
Defined.

(** X3.  When every attempt is transient and the last one is a 429, the loop
    runs out and [fetchWithRetry] returns [undefined], having made [retries]
    calls and slept after each of them, the last one included: with the
    defaults, 1000 + 2000 + 4000 ms. *)
Theorem fetchWithRetry_rate_limited_out (net : Network) (url : string)
    (retries : nat) (delay : Z) (w : World) (r : HttpResponse) :
  (0 < retries)%nat ->
  (forall j, (j < retries - 1)%nat -> transient (net url (calls w + j)%nat)) ->
  net url (calls w + (retries - 1))%nat = Answered r -> status r = 429 ->
  fetchWithRetry net url retries delay w
  = (Undefined, mkWorld (calls w + retries) (sleeps w ++ waits delay 0 retries)) /\
  (retries = 3%nat -> delay = 1000 -> waits delay 0 retries = [1000; 2000; 4000]).
Proof.
  intros Hpos Htr Hnet H429. split; [|by intros -> ->].
  unfold fetchWithRetry.
  rewrite (fetchWithRetry_from_skip net url retries delay (retries - 1) 0 retries w)
    by (done || lia).
  replace (retries - (retries - 1))%nat with 1%nat by lia. simpl.
  rewrite Hnet, H429. simpl. unfold slept, called. simpl.
  assert (waits delay 0 retries
          = waits delay 0 (retries - 1) ++ [delay * 2 ^ Z.of_nat (retries - 1)]) as ->.
  { replace retries with (S (retries - 1)) at 1 by lia. by rewrite waits_snoc. }
  rewrite <- app_assoc. repeat f_equal. lia.
Qed.

Lemma fetchWithRetry_rate_limited_out_witness :
  fetchWithRetry rate_limited "u" 3 1000 dawn
  = (Undefined, mkWorld (calls dawn + 3) (sleeps dawn ++ waits 1000 0 3)) /\
  (3%nat = 3%nat -> 1000 = 1000 -> waits 1000 0 3 = [1000; 2000; 4000]).
Proof.
  apply (fetchWithRetry_rate_limited_out rate_limited "u" 3 1000 dawn
           (mkResponse 429 None)).
  - lia.
  - intros j Hj. right. by eexists.
  - reflexivity.
  - reflexivity.
Defined.

(** X4.  A rejection on the last iteration ends the loop with [null] and no
    further wait; rejections before it are each waited out. *)
Theorem fetchWithRetry_rejected_last (net : Network) (url : string)
    (retries : nat) (delay : Z) (w : World) :
  (0 < retries)%nat ->
  (forall j, (j < retries - 1)%nat -> transient (net url (calls w + j)%nat)) ->
  net url (calls w + (retries - 1))%nat = Rejected ->
  fetchWithRetry net url retries delay w
  = (Null, mkWorld (calls w + retries) (sleeps w ++ waits delay 0 (retries - 1))).
Proof.
  intros Hpos Htr Hnet. unfold fetchWithRetry.
  rewrite (fetchWithRetry_from_skip net url retries delay (retries - 1) 0 retries w)
    by (done || lia).
  replace (retries - (retries - 1))%nat with 1%nat by lia. simpl.
  rewrite Hnet, Nat.eqb_refl. unfold called. simpl. repeat f_equal. lia.
Qed.

Lemma fetchWithRetry_rejected_last_witness :
  fetchWithRetry (fun _ _ => Rejected) "u" 3 1000 dawn
  = (Null, mkWorld (calls dawn + 3) (sleeps dawn ++ waits 1000 0 (3 - 1))).
Proof.
  apply (fetchWithRetry_rejected_last (fun _ _ => Rejected) "u" 3 1000 dawn).
  - lia.
  - intros j Hj. by left.
  - reflexivity.
Defined.

(** X5.  Whatever the network does, [fetchWithRetry] makes at most [retries]
    calls, its waits are the doubling delays from [delay] on, and a response
    it returns is the 2xx answer of its last call. *)
Theorem fetchWithRetry_bounded (net : Network) (url : string) (retries : nat)
    (delay : Z) (w : World) :
  exists attempts pauses,
    (pauses <= attempts <= retries)%nat /\
    calls (snd (fetchWithRetry net url retries delay w)) = (calls w + attempts)%nat /\
    sleeps (snd (fetchWithRetry net url retries delay w))
    = sleeps w ++ waits delay 0 pauses /\
    (forall r, fst (fetchWithRetry net url retries delay w) = Resp r ->
       response_ok r = true /\ S pauses = attempts /\
       net url (calls w + pauses)%nat = Answered r) /\
    (fst (fetchWithRetry net url retries delay w) = Undefined ->
       attempts = retries /\ pauses = retries).
Proof.
  unfold fetchWithRetry.
  destruct (fetchWithRetry_from_bounds net url retries delay retries 0 w)
    as (a & p & Ha & Hc & Hs & Hres).
  exists a, p. destruct (fst _) as [r| |].
  - destruct Hres as (? & ? & ?).
    split; [lia|]. split; [done|]. split; [done|].
    split; [by intros r' [= <-] | discriminate].
  - split; [lia|]. split; [done|]. split; [done|]. split; discriminate.
  - split; [lia|]. split; [done|]. split; [done|].
    split; [discriminate | intros _; lia].
Qed.

(** ** Fetching the top collections *)

Lemma Index_fetch_loop_done (net : Network) (fuel : nat)
    (collections : list Collection) (continuation : option string) (w : World) :
  (100 <= length collections)%nat ->
  Index_fetch_loop net fuel collections continuation w
  = Some (Listed collections, w).
Proof.
  intros Hlen. destruct fuel; simpl;
    (destruct (Nat.ltb_spec (length collections) 100); [lia | reflexivity]).
Qed.

Lemma Index_fetch_loop_step (net : Network) (fuel : nat)
    (collections : list Collection) (continuation : option string) (w : World) :
  (length collections < 100)%nat ->
  Index_fetch_loop net (S fuel) collections continuation w
  = let fetched := fetchWithRetry net (request_url "1dayVolume" continuation) 3 1000 w in
    match fst fetched with
    | Resp response =>
        match payload response with
        | None => Some (Threw, snd fetched)
        | Some data =>
            match page_collections data with
            | None => Some (Listed collections, snd fetched)
            | Some [] => Some (Listed collections, snd fetched)
            | Some batch =>
                if falsy_str (page_continuation data)
                   || (100 <=? length (collections ++ batch))%nat
                then Some (Listed (collections ++ batch), snd fetched)
                else Index_fetch_loop net fuel (collections ++ batch)
                       (page_continuation data) (slept 500 (snd fetched))
            end
        end
    | Null => Some (Listed collections, snd fetched)
    | Undefined => Some (Listed collections, snd fetched)
    end.
Proof.
  intros Hlen. simpl.
  destruct (Nat.ltb_spec (length collections) 100); [reflexivity | lia].
Qed.

Lemma fetchWithRetry_calls (net : Network) (url : string) (w : World) :
  (calls w <= calls (snd (fetchWithRetry net url 3 1000 w)) <= calls w + 3)%nat.
Proof.
  unfold fetchWithRetry.
  destruct (fetchWithRetry_from_bounds net url 3 1000 3 0 w) as (a & p & Ha & -> & _).
  lia.
Qed.

(** A response that [fetchWithRetry] returns is the 2xx answer of the last
    call it made. *)
Lemma fetchWithRetry_response (net : Network) (url : string) (w : World)
    (r : HttpResponse) :
  fst (fetchWithRetry net url 3 1000 w) = Resp r ->
  (calls w < calls (snd (fetchWithRetry net url 3 1000 w)))%nat /\
  net url (calls (snd (fetchWithRetry net url 3 1000 w)) - 1)%nat = Answered r /\
  response_ok r = true.
Proof.
  unfold fetchWithRetry.
  destruct (fetchWithRetry_from_bounds net url 3 1000 3 0 w)
    as (a & p & Ha & -> & _ & Hres).
  intros Hr. rewrite Hr in Hres. destruct Hres as (<- & Hok & Hnet).
  split; [lia|]. split; [|done].
  by replace (calls w + S p - 1)%nat with (calls w + p)%nat by lia.
Qed.

(** With as many iterations allowed as records are missing, the loop of
    index.js ends; a list it returns extends what it had, it costs at most
    three calls a missing record, and its result does not depend on the
    allowance. *)
Lemma Index_fetch_loop_total (net : Network) (fuel : nat) :
  forall (collections : list Collection) (continuation : option string) (w : World),
    (100 - length collections <= fuel)%nat ->
    exists out w',
      Index_fetch_loop net fuel collections continuation w = Some (out, w') /\
      match out with
      | Listed cs => collections `prefix_of` cs
      | Threw => Index_threw_at net w w'
      end /\
      (calls w <= calls w' <= calls w + 3 * (100 - length collections))%nat /\
      forall fuel', (100 - length collections <= fuel')%nat ->
        Index_fetch_loop net fuel' collections continuation w = Some (out, w').
Proof.
  induction fuel as [|fuel IH]; intros collections continuation w Hfuel.
  - exists (Listed collections), w. rewrite Index_fetch_loop_done by lia.
    split; [done|]. split; [done|]. split; [lia|].
    intros fuel' _. apply Index_fetch_loop_done. lia.
  - destruct (decide (100 <= length collections)%nat) as [Hdone|Hmore].
    { exists (Listed collections), w. rewrite Index_fetch_loop_done by lia.
      split; [done|]. split; [done|]. split; [lia|].
      intros fuel' _. apply Index_fetch_loop_done. lia. }
    assert (forall fuel', (100 - length collections <= fuel')%nat ->
              exists f, fuel' = S f /\ (100 - S (length collections) <= f)%nat) as Hsucc.
    { intros [|f] Hf; [lia|]. exists f. split; [done | lia]. }
    rewrite Index_fetch_loop_step by lia. cbv zeta.
    pose proof (fetchWithRetry_calls net (request_url "1dayVolume" continuation) w)
      as Hcalls.
    pose proof (fetchWithRetry_response net (request_url "1dayVolume" continuation) w)
      as Hresp.
    destruct (fst (fetchWithRetry net (request_url "1dayVolume" continuation) 3 1000 w))
      as [response| |] eqn:Hres.
    + destruct (payload response) as [data|] eqn:Hpay.
      * destruct (page_collections data) as [[|c batch]|] eqn:Hbatch.
        -- eexists _, _. split; [reflexivity|]. split; [done|]. split; [lia|].
           intros fuel' Hf. destruct (Hsucc fuel' Hf) as (f & -> & _).
           rewrite Index_fetch_loop_step by lia. cbv zeta.
           rewrite Hres. cbv beta iota. rewrite Hpay, Hbatch. reflexivity.
        -- destruct (falsy_str (page_continuation data)
                     || (100 <=? length (collections ++ c :: batch))%nat) eqn:Hbreak.
           ++ eexists _, _. split; [reflexivity|].
              split; [by apply prefix_app_r|]. split; [lia|].
              intros fuel' Hf. destruct (Hsucc fuel' Hf) as (f & -> & _).
              rewrite Index_fetch_loop_step by lia. cbv zeta.
              rewrite Hres. cbv beta iota. rewrite Hpay, Hbatch, Hbreak. reflexivity.
           ++ assert (length (collections ++ c :: batch)
                      = S (length collections + length batch))
                as Hlen by (rewrite length_app; simpl; lia).
              destruct (IH (collections ++ c :: batch) (page_continuation data)
                          (slept 500 (snd (fetchWithRetry net
                             (request_url "1dayVolume" continuation) 3 1000 w))))
                as (out & w' & Hloop & Hout & Hc & Hany); [lia|].
              exists out, w'. split; [done|]. simpl in Hc. split; [|split; [lia|]].
              ** destruct out as [cs|].
                 --- etrans; [|exact Hout]. by apply prefix_app_r.
                 --- destruct Hout as [Hlt Hlast]. simpl in Hlt.
                     split; [lia | done].
              ** intros fuel' Hf. destruct (Hsucc fuel' Hf) as (f & -> & Hf').
                 rewrite Index_fetch_loop_step by lia. cbv zeta.
                 rewrite Hres. cbv beta iota. rewrite Hpay, Hbatch, Hbreak.
                 apply Hany. lia.
        -- eexists _, _. split; [reflexivity|]. split; [done|]. split; [lia|].
           intros fuel' Hf. destruct (Hsucc fuel' Hf) as (f & -> & _).
           rewrite Index_fetch_loop_step by lia. cbv zeta.
           rewrite Hres. cbv beta iota. rewrite Hpay, Hbatch. reflexivity.
      * eexists _, _. split; [reflexivity|].
        destruct (Hresp response eq_refl) as (Hlt & Hnet & Hok).
        split; [|split; [lia|]].
        -- split; [done|]. by exists continuation, response.
        -- intros fuel' Hf. destruct (Hsucc fuel' Hf) as (f & -> & _).
           rewrite Index_fetch_loop_step by lia. cbv zeta.
           rewrite Hres. cbv beta iota. rewrite Hpay. reflexivity.
    + eexists _, _. split; [reflexivity|]. split; [done|]. split; [lia|].
      intros fuel' Hf. destruct (Hsucc fuel' Hf) as (f & -> & _).
      rewrite Index_fetch_loop_step by lia. cbv zeta. by rewrite Hres.
    + eexists _, _. split; [reflexivity|]. split; [done|]. split; [lia|].
      intros fuel' Hf. destruct (Hsucc fuel' Hf) as (f & -> & _).
      rewrite Index_fetch_loop_step by lia. cbv zeta. by rewrite Hres.
Qed.

(** X6.  [fetchTopCollections] of index.js always ends: a hundred iterations
    of its loop are enough on every network, more change nothing, and it
    costs at most three hundred calls.  It ends with a list of at most a
    hundred records, or, [response.json()] being awaited outside any [try],
    with the exception of a 2xx answer whose body does not parse, on the last
    call it made; it returns a list whenever every 2xx answer parses. *)
Theorem Index_fetchTopCollections_returns (net : Network) (w : World) (fuel : nat) :
  (100 <= fuel)%nat ->
  exists out w',
    Index_fetchTopCollections net fuel w = Some (out, w') /\
    Index_fetchTopCollections net 100 w = Some (out, w') /\
    (calls w <= calls w' <= calls w + 300)%nat /\
    match out with
    | Listed cs => (length cs <= 100)%nat
    | Threw =>
        (calls w < calls w')%nat /\
        exists continuation r,
          net (request_url "1dayVolume" continuation) (calls w' - 1)%nat
          = Answered r /\
          response_ok r = true /\ payload r = None
    end /\
    ((forall url n r, net url n = Answered r -> response_ok r = true ->
        payload r <> None) ->
     exists cs, out = Listed cs).
Proof.
  intros Hfuel. unfold Index_fetchTopCollections.
  destruct (Index_fetch_loop_total net 100 [] None w)
    as (out & w' & H100 & Hout & Hc & Hany); [simpl; lia|].
  rewrite (Hany fuel) by (simpl; lia). rewrite H100. simpl in Hc.
  destruct out as [cs|].
  - exists (Listed (take 100 cs)), w'. split; [done|]. split; [done|].
    split; [lia|]. split; [rewrite length_take; lia|]. intros _. by eexists.
  - exists Threw, w'. split; [done|]. split; [done|]. split; [lia|].
    split; [exact Hout|]. intros Hparse.
    destruct Hout as (_ & continuation & r & Hnet & Hok & Hpay).
    by destruct (Hparse _ _ r Hnet Hok).
Qed.

Lemma Index_fetchTopCollections_returns_witness :
  exists out w',
    Index_fetchTopCollections three_pages 150 dawn = Some (out, w') /\
    Index_fetchTopCollections three_pages 100 dawn = Some (out, w') /\
    (calls dawn <= calls w' <= calls dawn + 300)%nat /\
    match out with
    | Listed cs => (length cs <= 100)%nat
    | Threw =>
        (calls dawn < calls w')%nat /\
        exists continuation r,
          three_pages (request_url "1dayVolume" continuation) (calls w' - 1)%nat
          = Answered r /\
          response_ok r = true /\ payload r = None
    end /\
    ((forall url n r, three_pages url n = Answered r -> response_ok r = true ->
        payload r <> None) ->
     exists cs, out = Listed cs).
Proof.
  apply (Index_fetchTopCollections_returns three_pages dawn 150). lia.
Defined.

(** The two ends of the fetch of index.js, on sample networks: sixty records
    in three calls, and an exception on the first call when the body does not
    parse. *)
Lemma Index_fetchTopCollections_examples :
  Index_fetchTopCollections three_pages 100 dawn
  = Some (Listed (top 60), mkWorld 3 [500; 500]) /\
  Index_fetchTopCollections garbled 100 dawn = Some (Threw, mkWorld 1 []).
Proof. split; vm_compute; reflexivity. Qed.

(** X7.  index.js keeps what it has when a later page cannot be fetched: if
    the first page brings fewer than a hundred records and a continuation, and
    the request for the second page ends without a response, the cycle goes
    on with the first page alone, as a short list, and caches it. *)
Theorem Index_partial_fetch_published (net : Network) (assets : string -> bool)
    (w w1 : World) (st : Index.State) (r1 : HttpResponse)
    (batch : list Collection) (continuation : option string) (fuel : nat) :
  (2 <= fuel)%nat ->
  fetchWithRetry net (request_url "1dayVolume" None) 3 1000 w = (Resp r1, w1) ->
  payload r1 = Some (mkPage (Some batch) continuation) ->
  batch <> [] -> (length batch < 100)%nat ->
  falsy_str continuation = false ->
  (forall r,
     fst (fetchWithRetry net (request_url "1dayVolume" continuation) 3 1000
            (slept 500 w1)) <> Resp r) ->
  exists st',
    Index_updateRankings_online net fuel assets w st
    = Some (Completed st',
            snd (fetchWithRetry net (request_url "1dayVolume" continuation) 3 1000
                   (slept 500 w1))) /\
    Index.latestCollections st' = batch.
Proof.
  intros Hfuel H1 Hpay Hne Hlen Hcont H2.
  destruct fuel as [|[|fuel]]; [lia | lia |].
  unfold Index_updateRankings_online, Index_fetchTopCollections.
  rewrite Index_fetch_loop_step by (simpl; lia). cbv zeta.
  rewrite H1. simpl fst. simpl snd. cbv beta iota. rewrite Hpay.
  destruct batch as [|c batch]; [done|]. simpl page_collections.
  simpl page_continuation. cbv beta iota. rewrite Hcont.
  change ([] ++ c :: batch) with (c :: batch).
  destruct (Nat.leb_spec 100 (length (c :: batch))); [lia|]. cbn [orb].
  rewrite Index_fetch_loop_step by lia. cbv zeta.
  destruct (fst (fetchWithRetry net _ 3 1000 (slept 500 w1))) as [r| |] eqn:Hres;
    [by destruct (H2 r)| |].
  - rewrite take_ge by lia. rewrite (Index_cycle assets (c :: batch) st) by done.
    eexists. split; reflexivity.
  - rewrite take_ge by lia. rewrite (Index_cycle assets (c :: batch) st) by done.
    eexists. split; reflexivity.
Qed.

Lemma Index_partial_fetch_published_witness :
  exists st',
    Index_updateRankings_online one_page_then_down 100 all_assets dawn Index_fresh
    = Some (Completed st',
            snd (fetchWithRetry one_page_then_down
                   (request_url "1dayVolume" (Some "p1")) 3 1000
                   (slept 500 (mkWorld 1 [])))) /\
    Index.latestCollections st' = top 20.
Proof.
  apply (Index_partial_fetch_published one_page_then_down all_assets dawn
           (mkWorld 1 []) Index_fresh
           (mkResponse 200 (Some (mkPage (Some (top 20)) (Some "p1"))))
           (top 20) (Some "p1") 100).
  - lia.
  - reflexivity.
  - reflexivity.
  - discriminate.
  - vm_compute. lia.
  - reflexivity.
  - intros r. vm_compute. discriminate.
Defined.

(** X8.  When the first request of a cycle of index.js ends without a
    response, or with a response whose collections are missing or empty, the
    cycle aborts: no file and no image is touched, and the cache of latest
    collections is emptied, after the calls and waits of that one request. *)
Theorem Index_failed_fetch_aborts (net : Network) (assets : string -> bool)
    (w : World) (st : Index.State) (fuel : nat) :
  (1 <= fuel)%nat ->
  match fst (fetchWithRetry net (request_url "1dayVolume" None) 3 1000 w) with
  | Resp r => exists data, payload r = Some data /\
                (page_collections data = None \/ page_collections data = Some [])
  | Null => True
  | Undefined => True
  end ->
  Index_updateRankings_online net fuel assets w st
  = Some (Aborted (Index.mkState (Index.rankings_file st) (Index.colors_file st)
                     (Index.images st) []),
          snd (fetchWithRetry net (request_url "1dayVolume" None) 3 1000 w)).
Proof.
  intros Hfuel Hfirst. destruct fuel as [|fuel]; [lia|].
  unfold Index_updateRankings_online, Index_fetchTopCollections.
  rewrite Index_fetch_loop_step by (simpl; lia). cbv zeta.
  destruct (fst (fetchWithRetry net _ 3 1000 w)) as [r| |]; [|done|done].
  destruct Hfirst as (data & -> & [-> | ->]); reflexivity.
Qed.

Lemma Index_failed_fetch_aborts_witness :
  Index_updateRankings_online rate_limited 100 all_assets dawn Index_cached
  = Some (Aborted (Index.mkState (Index.rankings_file Index_cached)
                     (Index.colors_file Index_cached)
                     (Index.images Index_cached) []),
          snd (fetchWithRetry rate_limited (request_url "1dayVolume" None) 3 1000 dawn)).
Proof.
  apply (Index_failed_fetch_aborts rate_limited all_assets dawn Index_cached 100).
  - lia.
  - vm_compute. exact I.
Defined.

(** X30.  A 2xx answer to the first request of a cycle of index.js whose body
    does not parse ends the cycle with the exception of [response.json()],
    which nothing catches: no file, no image and not the cache of latest
    collections is touched, whatever they held. *)
Theorem Index_unparsable_body_crashes (net : Network) (assets : string -> bool)
    (w w1 : World) (st : Index.State) (r : HttpResponse) (fuel : nat) :
  (1 <= fuel)%nat ->
  fetchWithRetry net (request_url "1dayVolume" None) 3 1000 w = (Resp r, w1) ->
  payload r = None ->
  Index_fetchTopCollections net fuel w = Some (Threw, w1) /\
  Index_updateRankings_online net fuel assets w st = Some (Crashed st, w1).
Proof.
  intros Hfuel Hfirst Hpay. destruct fuel as [|fuel]; [lia|].
  unfold Index_updateRankings_online, Index_fetchTopCollections.
  rewrite Index_fetch_loop_step by (simpl; lia). cbv zeta.
  rewrite Hfirst. simpl fst. simpl snd. cbv beta iota. by rewrite Hpay.
Qed.

Lemma Index_unparsable_body_crashes_witness :
  Index_fetchTopCollections garbled 100 dawn = Some (Threw, mkWorld 1 []) /\
  Index_updateRankings_online garbled 100 all_assets dawn Index_cached
  = Some (Crashed Index_cached, mkWorld 1 []).
Proof.
  apply (Index_unparsable_body_crashes garbled all_assets dawn (mkWorld 1 [])
           Index_cached (mkResponse 200 None) 100).
  - lia.
  - reflexivity.
  - reflexivity.
Defined.

Lemma Check24_fetch_loop_step (net : Network) (fuel : nat)
    (collections : list (option Collection)) (continuation : option string)
    (w : World) :
  (length collections < 100)%nat ->
  Check24_fetch_loop net (S fuel) collections continuation w
  = match net (request_url "1DayVolume" continuation) (calls w) with
    | Rejected => Some (Threw, called w)
    | Answered response =>
        if negb (response_ok response) then Some (Listed collections, called w)
        else
          match payload response with
          | None => Some (Threw, called w)
          | Some data =>
              if falsy_str (page_continuation data)
              then Some (Listed (concat_field collections (page_collections data)),
                         called w)
              else Check24_fetch_loop net fuel
                     (concat_field collections (page_collections data))
                     (page_continuation data) (called w)
          end
    end.
Proof.
  intros Hlen. simpl.
  destruct (Nat.ltb_spec (length collections) 100); [reflexivity | lia].
Qed.

Lemma Check24_fetch_loop_done (net : Network) (fuel : nat)
    (collections : list (option Collection)) (continuation : option string)
    (w : World) :
  (100 <= length collections)%nat ->
  Check24_fetch_loop net fuel collections continuation w
  = Some (Listed collections, w).
Proof.
  intros Hlen. destruct fuel; simpl;
    (destruct (Nat.ltb_spec (length collections) 100); [lia | reflexivity]).
Qed.

(** X9.  On a network that keeps answering with an empty page and a
    continuation, [fetchTopCollections] of 24hr_check.js (and of
    working_redGreen.js) never returns, however many iterations it is given,
    while that of index.js returns the empty list after its first call. *)
Theorem fetch_on_empty_pages (net : Network) :
  (forall url n, exists r continuation,
     net url n = Answered r /\ response_ok r = true /\
     payload r = Some (mkPage (Some []) continuation) /\
     falsy_str continuation = false) ->
  (forall fuel w, Check24_fetchTopCollections net fuel w = None) /\
  (forall fuel w, (1 <= fuel)%nat ->
     Index_fetchTopCollections net fuel w = Some (Listed [], called w)).
Proof.
  intros Hnet. split.
  - assert (forall fuel continuation w,
              Check24_fetch_loop net fuel [] continuation w = None) as Hloop.
    { induction fuel as [|fuel IH]; intros continuation w; [reflexivity|].
      rewrite Check24_fetch_loop_step by (simpl; lia).
      destruct (Hnet (request_url "1DayVolume" continuation) (calls w))
        as (r & next & -> & -> & -> & Hnext). simpl. rewrite Hnext. apply IH. }
    intros fuel w. unfold Check24_fetchTopCollections. by rewrite Hloop.
  - intros [|fuel] w Hfuel; [lia|]. unfold Index_fetchTopCollections.
    rewrite Index_fetch_loop_step by (simpl; lia). cbv zeta.
    destruct (Hnet (request_url "1dayVolume" None) (calls w))
      as (r & next & Hr & Hok & Hpay & _).
    assert (fetchWithRetry net (request_url "1dayVolume" None) 3 1000 w
            = (Resp r, called w)) as ->.
    { unfold fetchWithRetry. simpl. rewrite Hr.
      assert (status r <> 429) as H429.
      { unfold response_ok in Hok. apply andb_true_iff in Hok as [_ Hle].
        apply Z.leb_le in Hle. lia. }
      destruct (Z.eqb_spec (status r) 429); [done|]. by rewrite Hok. }
    simpl. by rewrite Hpay.
Qed.

Lemma fetch_on_empty_pages_witness :
  (forall fuel w, Check24_fetchTopCollections empty_pages fuel w = None) /\
  (forall fuel w, (1 <= fuel)%nat ->
     Index_fetchTopCollections empty_pages fuel w = Some (Listed [], called w)).
Proof.
  apply (fetch_on_empty_pages empty_pages).
  intros url n. eexists _, _. split; [reflexivity|]. done.
Defined.

Lemma concat_field_length (collections : list (option Collection))
    (field : option (list Collection)) :
  field <> Some [] ->
  (length collections < length (concat_field collections field))%nat.
Proof.
  destruct field as [[|c batch]|]; [done | |]; intros _; simpl;
    rewrite length_app; simpl; lia.
Qed.

Lemma Check24_fetch_loop_progress (net : Network) (fuel : nat) :
  (forall url n r data, net url n = Answered r -> response_ok r = true ->
     payload r = Some data -> page_collections data <> Some []) ->
  forall (collections : list (option Collection)) (continuation : option string)
         (w : World),
    (100 - length collections <= fuel)%nat ->
    exists out w',
      Check24_fetch_loop net fuel collections continuation w = Some (out, w') /\
      (calls w <= calls w' <= calls w + (100 - length collections))%nat.
Proof.
  intros Hprog. induction fuel as [|fuel IH]; intros collections continuation w Hfuel.
  - rewrite Check24_fetch_loop_done by lia. eexists _, _. split; [done | lia].
  - destruct (decide (100 <= length collections)%nat) as [Hdone|Hmore].
    { rewrite Check24_fetch_loop_done by lia. eexists _, _. split; [done | lia]. }
    rewrite Check24_fetch_loop_step by lia.
    destruct (net (request_url "1DayVolume" continuation) (calls w)) as [r|] eqn:Hr.
    + destruct (response_ok r) eqn:Hok; simpl.
      * destruct (payload r) as [data|] eqn:Hpay.
        -- destruct (falsy_str (page_continuation data)).
           ++ eexists _, _. split; [done | simpl; lia].
           ++ pose proof (concat_field_length collections (page_collections data)
                            (Hprog _ _ r data Hr Hok Hpay)) as Hgrow.
              destruct (IH (concat_field collections (page_collections data))
                          (page_continuation data) (called w))
                as (out & w' & -> & Hc); [lia|].
              exists out, w'. split; [done|]. simpl in Hc. lia.
        -- eexists _, _. split; [done | simpl; lia].
      * eexists _, _. split; [done | simpl; lia].
    + eexists _, _. split; [done | simpl; lia].
Qed.

(** X10.  When no 2xx answer carries an empty list of collections,
    [fetchTopCollections] of 24hr_check.js ends within a hundred iterations
    and a hundred calls, and a list it returns has at most a hundred entries. *)
Theorem Check24_fetchTopCollections_returns (net : Network) (w : World) (fuel : nat) :
  (forall url n r data, net url n = Answered r -> response_ok r = true ->
     payload r = Some data -> page_collections data <> Some []) ->
  (100 <= fuel)%nat ->
  exists out w',
    Check24_fetchTopCollections net fuel w = Some (out, w') /\
    (calls w <= calls w' <= calls w + 100)%nat /\
    match out with
    | Listed cs => (length cs <= 100)%nat
    | Threw => True
    end.
Proof.
  intros Hprog Hfuel. unfold Check24_fetchTopCollections.
  destruct (Check24_fetch_loop_progress net fuel Hprog [] None w)
    as (out & w' & -> & Hc); [simpl; lia|].
  simpl in Hc. destruct out as [cs|].
  - eexists _, _. split; [done|]. split; [lia|]. rewrite length_take. lia.
  - eexists _, _. split; [done|]. split; [lia | done].
Qed.

Lemma Check24_fetchTopCollections_returns_witness :
  exists out w',
    Check24_fetchTopCollections three_pages 100 dawn = Some (out, w') /\
    (calls dawn <= calls w' <= calls dawn + 100)%nat /\
    match out with
    | Listed cs => (length cs <= 100)%nat
    | Threw => True
    end.
Proof.
  apply (Check24_fetchTopCollections_returns three_pages dawn 100); [|lia].
  intros url [|[|[|n]]] r data [= <-] _ [= <-]; discriminate.
Defined.




(** ** What a completed cycle of index.js persists and serves *)

Lemma Index_completed_inv (assets : string -> bool) (collections : list Collection)
    (st st' : Index.State) :
  Index.updateRankings assets collections st = Completed st' ->
  collections <> [] /\
  st' = Index.mkState
          (Some (newPreviousRankings
                   (Index_loop assets (load_object (Index.rankings_file st))
                      (load_object (Index.colors_file st)) collections
                      (Index.images st) (Nat.min (length collections) 100))))
          (Some (newPreviousColors
                   (Index_loop assets (load_object (Index.rankings_file st))
                      (load_object (Index.colors_file st)) collections
                      (Index.images st) (Nat.min (length collections) 100))))
          (imagesDir
             (Index_loop assets (load_object (Index.rankings_file st))
                (load_object (Index.colors_file st)) collections
                (Index.images st) (Nat.min (length collections) 100)))
          collections.
Proof.
  intros Hrun. assert (collections <> []) as Hne.
  { intros ->. discriminate Hrun. }
  split; [done|]. rewrite (Index_cycle assets collections st Hne) in Hrun.
  by injection Hrun.
Qed.

(** The new rankings do not depend on what was stored before, nor on the
    assets. *)
Lemma Index_loop_rankings_fresh (assets assets' : string -> bool)
    (pr pr' : gmap string Z) (pc pc' : gmap string string)
    (collections : list Collection) (dir dir' : gmap Z Image) (n : nat) :
  newPreviousRankings (Index_loop assets pr pc collections dir n)
  = newPreviousRankings (Index_loop assets' pr' pc' collections dir' n).
Proof.
  induction n as [|n IH]; [reflexivity|]. rewrite !Index_loop_S.
  destruct (Index_position collections n) as [(c & Hc & Hid)|Hskip].
  - rewrite !(Index_body_step _ _ _ _ _ _ c Hc Hid). simpl. by rewrite IH.
  - by rewrite !Index_body_skip.
Qed.

Lemma colorAgainst_Some (movement : Movement) (pc : gmap string string)
    (key color : string) :
  colorAgainst movement pc key = Some color ->
  exists stored, color = resolveColor movement stored.
Proof.
  unfold colorAgainst. destruct (js_get pc key) as [stored| |].
  - intros [= <-]. by eexists.
  - destruct movement; [intros [= <-]; by exists None ..|discriminate].
  - intros [= <-]. by eexists.
Qed.

Lemma colorAgainst_None (movement : Movement) (pc : gmap string string)
    (key : string) :
  colorAgainst movement pc key = None <->
  movement = same /\ pc !! key = None /\ inherited key = true.
Proof.
  unfold colorAgainst. rewrite <- js_get_Inherited.
  destruct (js_get pc key); [|destruct movement|]; split;
    first [discriminate | by intros (? & ?) | done].
Qed.

Lemma Index_color_ordinary (pr : gmap string Z) (pc : gmap string string)
    (i : nat) (c : Collection) :
  inherited (prop_key (id c)) = false -> is_Some (Index_color pr pc i c).
Proof.
  intros Hord. destruct (Index_color pr pc i c) eqn:Hcol; [by eexists|].
  apply colorAgainst_None in Hcol as (_ & _ & Hin). congruence.
Qed.

(** The two dictionaries are filled together, but for the identities that are
    names of inherited members, which may be left without a colour. *)
Lemma Index_loop_same_keys (assets : string -> bool)
    (pr : gmap string Z) (pc : gmap string string)
    (collections : list Collection) (dir : gmap Z Image) (n : nat) (k : string) :
  (is_Some (newPreviousColors (Index_loop assets pr pc collections dir n) !! k) ->
   is_Some (newPreviousRankings (Index_loop assets pr pc collections dir n) !! k)) /\
  (inherited k = false ->
   is_Some (newPreviousRankings (Index_loop assets pr pc collections dir n) !! k) ->
   is_Some (newPreviousColors (Index_loop assets pr pc collections dir n) !! k)).
Proof.
  induction n as [|n [IH1 IH2]].
  - cbn. rewrite !lookup_empty. split; [|intros _]; intros [? ?]; discriminate.
  - rewrite Index_loop_S.
    destruct (Index_position collections n) as [(c & Hc & Hid)|Hskip];
      [|by rewrite Index_body_skip].
    rewrite (Index_body_step _ _ _ _ _ _ c Hc Hid). simpl. split.
    + intros [color Hcol].
      apply lookup_Index_store_color_Some in Hcol as [(<- & Hp & _)|Hcol].
      * rewrite lookup_js_set_eq by done. by eexists.
      * apply js_set_keeps. apply IH1. by eexists.
    + intros Hord [r Hr].
      destruct (decide (prop_key (id c) = k)) as [<-|Hne].
      * rewrite lookup_Index_store_color_eq by (by apply inherited_proto).
        by apply Index_color_ordinary.
      * rewrite lookup_Index_store_color_ne by done. apply IH2; [done|].
        rewrite lookup_js_set_ne in Hr by done. by eexists.
Qed.

Lemma Index_color_green_red (pr : gmap string Z) (pc : gmap string string)
    (i : nat) (c : Collection) (color : string) :
  (forall k stored, pc !! k = Some stored -> green_or_red stored) ->
  Index_color pr pc i c = Some color -> green_or_red color.
Proof.
  intros Hprev. unfold Index_color, colorAgainst.
  destruct (js_get pc (prop_key (id c))) as [stored| |] eqn:Hget.
  - apply js_get_Own in Hget. intros [= <-]. unfold resolveColor.
    destruct (movementAgainst _ _ _); [by left | by right |].
    destruct stored as [|a rest]; [by right|]. apply (Hprev _ _ Hget).
  - destruct (movementAgainst _ _ _); intros [= <-]; [by left | by right].
  - intros [= <-]. unfold resolveColor.
    destruct (movementAgainst _ _ _); [by left | by right | by right].
Qed.

(** X12.  After a completed cycle of index.js, every persisted rank is the
    position plus one, within 1..min(n, 100), of a record of the current list
    that carries that identity; no two identities share a rank; an identity
    that is not in the current list has no entry left. *)
Theorem Index_rankings_current (assets : string -> bool)
    (collections : list Collection) (st st' : Index.State)
    (rankings : gmap string Z) :
  Index.updateRankings assets collections st = Completed st' ->
  Index.rankings_file st' = Some rankings ->
  (forall k r, rankings !! k = Some r ->
     1 <= r <= Z.of_nat (Nat.min (length collections) 100) /\
     exists c, collections !! Z.to_nat (r - 1) = Some c /\ id c = Some k) /\
  (forall k1 k2 r, rankings !! k1 = Some r -> rankings !! k2 = Some r -> k1 = k2) /\
  (forall k, (forall c, c ∈ collections -> id c <> Some k) -> rankings !! k = None).
Proof.
  intros Hrun Hfile. apply Index_completed_inv in Hrun as [_ ->].
  simpl in Hfile. injection Hfile as <-.
  assert (forall k r,
            newPreviousRankings
              (Index_loop assets (load_object (Index.rankings_file st))
                 (load_object (Index.colors_file st)) collections (Index.images st)
                 (Nat.min (length collections) 100)) !! k = Some r ->
            1 <= r <= Z.of_nat (Nat.min (length collections) 100) /\
            exists c, collections !! Z.to_nat (r - 1) = Some c /\ id c = Some k) as Hcur.
  { intros k r Hr.
    apply Index_loop_sound in Hr as (i & c & Hi & Hc & _ & Hid & -> & _).
    split; [lia|]. exists c. replace (Z.to_nat (Z.of_nat i + 1 - 1)) with i by lia.
    done. }
  split; [exact Hcur|]. split.
  - intros k1 k2 r H1 H2.
    apply Hcur in H1 as (_ & c1 & Hc1 & Hk1). apply Hcur in H2 as (_ & c2 & Hc2 & Hk2).
    congruence.
  - intros k Habs. destruct (newPreviousRankings _ !! k) as [r|] eqn:Hr; [|done].
    apply Hcur in Hr as (_ & c & Hc & Hk). destruct (Habs c); [|done].
    apply list_elem_of_lookup. eauto.
Qed.

Lemma Index_rankings_current_witness :
  (forall k r, <["a" := 1]> (<["b" := 2]> (<["c" := 3]> (∅ : gmap string Z))) !! k = Some r ->
     1 <= r <= Z.of_nat (Nat.min (length abc) 100) /\
     exists c, abc !! Z.to_nat (r - 1) = Some c /\ id c = Some k) /\
  (forall k1 k2 r,
     <["a" := 1]> (<["b" := 2]> (<["c" := 3]> (∅ : gmap string Z))) !! k1 = Some r ->
     <["a" := 1]> (<["b" := 2]> (<["c" := 3]> (∅ : gmap string Z))) !! k2 = Some r ->
     k1 = k2) /\
  (forall k, (forall c, c ∈ abc -> id c <> Some k) ->
     <["a" := 1]> (<["b" := 2]> (<["c" := 3]> (∅ : gmap string Z))) !! k = None).
Proof.
  apply (Index_rankings_current all_assets abc Index_fresh
           (final (Index.updateRankings all_assets abc Index_fresh))).
  - vm_compute. reflexivity.
  - vm_compute. reflexivity.
Defined.

(** X13.  After a completed cycle of index.js every identity that has a
    persisted colour has a persisted rank, and every identity that has a
    persisted rank and is not the name of a member every object inherits has a
    persisted colour.  (An identity such as constructor can be left with a
    rank and no colour: its colour was read from [Object.prototype] and is
    not a string.) *)
Theorem Index_rank_and_color_together (assets : string -> bool)
    (collections : list Collection) (st st' : Index.State)
    (rankings : gmap string Z) (colors : gmap string string) :
  Index.updateRankings assets collections st = Completed st' ->
  Index.rankings_file st' = Some rankings ->
  Index.colors_file st' = Some colors ->
  (forall k, is_Some (colors !! k) -> is_Some (rankings !! k)) /\
  (forall k, inherited k = false ->
     is_Some (rankings !! k) -> is_Some (colors !! k)).
Proof.
  intros Hrun Hr Hc. apply Index_completed_inv in Hrun as [_ ->].
  simpl in Hr, Hc. injection Hr as <-. injection Hc as <-.
  split; intros k; apply Index_loop_same_keys.
Qed.

Lemma Index_rank_and_color_together_witness :
  (forall k,
     is_Some (<["c1" := "green"]> (∅ : gmap string string) !! k) ->
     is_Some (<["constructor" := 1]> (<["c1" := 2]> (∅ : gmap string Z)) !! k)) /\
  (forall k, inherited k = false ->
     is_Some (<["constructor" := 1]> (<["c1" := 2]> (∅ : gmap string Z)) !! k) ->
     is_Some (<["c1" := "green"]> (∅ : gmap string string) !! k)).
Proof.
  apply (Index_rank_and_color_together all_assets constructor_first Index_fresh
           (final (Index.updateRankings all_assets constructor_first Index_fresh))).
  - vm_compute. reflexivity.
  - vm_compute. reflexivity.
  - vm_compute. reflexivity.
Defined.

(** X14.  If previous_colors.json holds only the colours green and red, so
    does the file a completed cycle of index.js writes, and so does every
    image the cycle draws: no third colour ever appears. *)
Theorem Index_colors_stay_green_or_red (assets : string -> bool)
    (collections : list Collection) (st st' : Index.State) :
  (forall k color,
     load_object (Index.colors_file st) !! k = Some color -> green_or_red color) ->
  Index.updateRankings assets collections st = Completed st' ->
  (forall k color, stored_color k st' = Some color -> green_or_red color) /\
  (forall t image,
     Index.images st' !! t = Some image -> Index.images st !! t <> Some image ->
     green_or_red (img_color image)).
Proof.
  intros Hprev Hrun. apply Index_completed_inv in Hrun as [_ ->]. split.
  - intros k color Hcol. unfold stored_color in Hcol. simpl in Hcol.
    apply Index_loop_sound in Hcol as (i & c & _ & _ & _ & _ & Hcol & _).
    by eapply Index_color_green_red.
  - intros t image. simpl. rewrite Index_loop_image_at. unfold Index_image_at.
    case_decide; [|done].
    destruct (collections !! Z.to_nat (t - 1)) as [c|]; [|done].
    destruct (falsy_str (id c)); [done|].
    destruct (Index_image _ _ _ _ c) as [drawn|] eqn:Hdrawn; [|done].
    intros [= <-] _. unfold Index_image in Hdrawn.
    destruct (Index_color _ _ _ c) as [color|] eqn:Hcol; [|discriminate].
    apply generateImage_rank in Hdrawn as (_ & -> & _).
    by eapply Index_color_green_red.
Qed.

Lemma Index_colors_stay_green_or_red_witness :
  (forall k color,
     stored_color k (final (Index.updateRankings all_assets abc Index_cached))
     = Some color -> green_or_red color) /\
  (forall t image,
     Index.images (final (Index.updateRankings all_assets abc Index_cached)) !! t
     = Some image ->
     Index.images Index_cached !! t <> Some image ->
     green_or_red (img_color image)).
Proof.
  apply (Index_colors_stay_green_or_red all_assets abc Index_cached).
  - intros k color Hk.
    assert (load_object (Index.colors_file Index_cached)
            = <["c0" := "green"]> (<["c1" := "green"]>
                (<["c2" := "green"]> (∅ : gmap string string)))) as Hfile
      by (vm_compute; reflexivity).
    rewrite Hfile in Hk. rewrite !lookup_insert in Hk.
    repeat case_decide; try (injection Hk as <-; by left).
    by rewrite lookup_empty in Hk.
  - vm_compute. reflexivity.
Defined.

Lemma NoDup_later_differs (collections : list Collection) (i j : nat)
    (c c' : Collection) :
  NoDup (id <$> collections) ->
  collections !! i = Some c -> collections !! j = Some c' -> (i < j)%nat ->
  id c' <> id c.
Proof.
  intros Hdup Hc Hc' Hij Heq. assert (i = j); [|lia].
  eapply (NoDup_lookup (id <$> collections)); [done | |].
  - by rewrite list_lookup_fmap, Hc.
  - rewrite list_lookup_fmap, Hc'. simpl. by rewrite Heq.
Qed.

Lemma rankMovement_same (r : Z) : 0 < r -> rankMovement r (Some r) = same.
Proof.
  intros Hr. unfold rankMovement, or_num.
  destruct (Z.eqb_spec r 0); [lia|]. by rewrite Z.ltb_irrefl.
Qed.

(** X15.  Repeating a cycle of index.js on an unchanged list, with identities
    that are all distinct, changes neither persisted dictionary: every rank
    compares as same and every colour is kept. *)
Theorem Index_repeat_cycle_stable (assets assets' : string -> bool)
    (collections : list Collection) (st st1 st2 : Index.State) :
  NoDup (id <$> collections) ->
  Index.updateRankings assets collections st = Completed st1 ->
  Index.updateRankings assets' collections st1 = Completed st2 ->
  Index.rankings_file st2 = Index.rankings_file st1 /\
  Index.colors_file st2 = Index.colors_file st1.
Proof.
  intros Hdup H1 H2.
  apply Index_completed_inv in H1 as [_ ->].
  apply Index_completed_inv in H2 as [_ ->]. simpl.
  set (n := Nat.min (length collections) 100).
  set (pr := load_object (Index.rankings_file st)).
  set (pc := load_object (Index.colors_file st)).
  set (a1 := Index_loop assets pr pc collections (Index.images st) n).
  split; f_equal; [apply Index_loop_rankings_fresh|].
  assert (forall i c k, (i < n)%nat -> collections !! i = Some c -> identified c ->
            id c = Some k -> k <> "__proto__" ->
            newPreviousRankings a1 !! k = Some (Z.of_nat i + 1) /\
            newPreviousColors a1 !! k = Index_color pr pc i c /\
            newPreviousColors
              (Index_loop assets' (newPreviousRankings a1) (newPreviousColors a1)
                 collections (imagesDir a1) n) !! k
            = Index_color (newPreviousRankings a1) (newPreviousColors a1) i c /\
            prop_key (id c) = k) as Hat.
  { intros i c k Hi Hc Hid Hkey Hproto.
    assert (prop_key (id c) = k) as Hpk by (by rewrite Hkey).
    assert (forall j c', (i < j < n)%nat -> collections !! j = Some c' ->
              id c' <> id c) as Hlast.
    { intros j c' Hj Hc'. eapply NoDup_later_differs; eauto. lia. }
    rewrite <- Hpk in Hproto.
    destruct (Index_loop_rank assets pr pc collections (Index.images st) n i c
                Hi Hc Hid Hproto Hlast) as [Hr1 Hc1]. fold a1 in Hr1, Hc1.
    destruct (Index_loop_rank assets' (newPreviousRankings a1) (newPreviousColors a1)
                collections (imagesDir a1) n i c Hi Hc Hid Hproto Hlast) as [_ Hc2].
    rewrite Hpk in Hr1, Hc1, Hc2. done. }
  assert (forall i k, newPreviousRankings a1 !! k = Some (Z.of_nat i + 1) ->
            movementAgainst (newPreviousRankings a1) k (Z.of_nat i + 1) = same)
    as Hsame.
  { intros i k Hr. unfold movementAgainst.
    rewrite (proj2 (js_get_Own _ _ _) Hr). apply rankMovement_same. lia. }
  apply map_eq. intros k.
  destruct (newPreviousColors a1 !! k) as [color|] eqn:Hk1.
  - destruct (proj2 (Index_loop_sound assets pr pc collections (Index.images st) n k)
                color Hk1) as (i & c & Hi & Hc & Hid & Hkey & Hcol & Hproto).
    destruct (Hat i c k Hi Hc Hid Hkey Hproto) as (Hr1 & _ & -> & Hpk).
    unfold Index_color. rewrite Hpk, (Hsame i k Hr1).
    unfold colorAgainst. rewrite (proj2 (js_get_Own _ _ _) Hk1).
    apply colorAgainst_Some in Hcol as [stored ->]. f_equal.
    pose proof (resolveColor_nonempty
      (movementAgainst pr (prop_key (id c)) (Z.of_nat i + 1)) stored) as Hne.
    simpl. by destruct (resolveColor _ _).
  - destruct (newPreviousColors (Index_loop assets' _ _ _ _ _) !! k)
      as [color|] eqn:Hk2; [|done].
    apply Index_loop_sound in Hk2 as (i & c & Hi & Hc & Hid & Hkey & Hcol & Hproto).
    destruct (Hat i c k Hi Hc Hid Hkey Hproto) as (Hr1 & Hc1 & _ & Hpk).
    rewrite Hk1 in Hc1. symmetry in Hc1.
    apply colorAgainst_None in Hc1 as (_ & _ & Hin).
    unfold Index_color in Hcol. rewrite Hpk, (Hsame i k Hr1) in Hcol.
    rewrite Hpk in Hin.
    assert (colorAgainst same (newPreviousColors a1) k = None) as Hnone
      by (by apply colorAgainst_None).
    congruence.
Qed.

Lemma Index_repeat_cycle_stable_witness :
  Index.rankings_file
    (final (Index.updateRankings all_assets abc
              (final (Index.updateRankings all_assets abc Index_cached))))
  = Index.rankings_file (final (Index.updateRankings all_assets abc Index_cached)) /\
  Index.colors_file
    (final (Index.updateRankings all_assets abc
              (final (Index.updateRankings all_assets abc Index_cached))))
  = Index.colors_file (final (Index.updateRankings all_assets abc Index_cached)).
Proof.
  apply (Index_repeat_cycle_stable all_assets all_assets abc Index_cached).
  - apply (bool_decide_eq_true_1 (NoDup (id <$> abc))). vm_compute. reflexivity.
  - vm_compute. reflexivity.
  - vm_compute. reflexivity.
Defined.

(** X16.  previous_rankings.json is overwritten wholesale: what a completed
    cycle of index.js writes there is determined by the fetched list alone,
    whatever the earlier files, images and cache held and whichever assets
    load. *)
Theorem Index_rankings_overwritten (assets assets' : string -> bool)
    (collections : list Collection) (st1 st2 st1' st2' : Index.State) :
  Index.updateRankings assets collections st1 = Completed st1' ->
  Index.updateRankings assets' collections st2 = Completed st2' ->
  Index.rankings_file st1' = Index.rankings_file st2' /\
  Index.latestCollections st1' = Index.latestCollections st2'.
Proof.
  intros H1 H2.
  apply Index_completed_inv in H1 as [_ ->].
  apply Index_completed_inv in H2 as [_ ->]. simpl.
  split; [|reflexivity]. f_equal. apply Index_loop_rankings_fresh.
Qed.

Lemma Index_rankings_overwritten_witness :
  Index.rankings_file (final (Index.updateRankings all_assets abc Index_fresh))
  = Index.rankings_file
      (final (Index.updateRankings (fun _ => false) abc Index_cached)) /\
  Index.latestCollections (final (Index.updateRankings all_assets abc Index_fresh))
  = Index.latestCollections
      (final (Index.updateRankings (fun _ => false) abc Index_cached)).
Proof.
  apply (Index_rankings_overwritten all_assets (fun _ => false) abc
           Index_fresh Index_cached).
  - vm_compute. reflexivity.
  - vm_compute. reflexivity.
Defined.

(** X17.  After a completed cycle of index.js the metadata endpoint serves
    every rank from 1 to the length of the fetched list, with the name of the
    collection at that position ("Unknown" when it has none) and the URL of
    the image of that rank. *)
Theorem Index_metadata_after_cycle (assets : string -> bool)
    (collections : list Collection) (st st' : Index.State)
    (origin : string) (tokenId : Z) :
  Index.updateRankings assets collections st = Completed st' ->
  1 <= tokenId <= Z.of_nat (length collections) ->
  exists c body,
    collections !! Z.to_nat (tokenId - 1) = Some c /\
    Index_metadata origin (Some tokenId) st' = Json body /\
    md_name body
    = "Rank #" +:+ pretty tokenId +:+ ": " +:+ or_str (name c) "Unknown" /\
    md_image body = origin +:+ "/images/token" +:+ pretty tokenId +:+ ".png".
Proof.
  intros Hrun Hrange. apply Index_completed_inv in Hrun as [_ ->].
  unfold Index_metadata, js_lt, js_gt, js_index, option_map. simpl.
  destruct (Z.ltb_spec tokenId 1); [lia|].
  destruct (Z.ltb_spec (Z.of_nat (length collections)) tokenId); [lia|].
  destruct (Nat.eqb_spec (length collections) 0); [lia|]. simpl.
  destruct (Z.ltb_spec (tokenId - 1) 0); [lia|].
  destruct (lookup_lt_is_Some_2 collections (Z.to_nat (tokenId - 1))) as [c Hc]; [lia|].
  rewrite Hc. by exists c; eexists.
Qed.

Lemma Index_metadata_after_cycle_witness :
  exists c body,
    abc !! Z.to_nat (2 - 1) = Some c /\
    Index_metadata "http://h" (Some 2)
      (final (Index.updateRankings all_assets abc Index_fresh)) = Json body /\
    md_name body = "Rank #" +:+ pretty 2 +:+ ": " +:+ or_str (name c) "Unknown" /\
    md_image body = "http://h" +:+ "/images/token" +:+ pretty 2 +:+ ".png".
Proof.
  apply (Index_metadata_after_cycle all_assets abc Index_fresh
           (final (Index.updateRankings all_assets abc Index_fresh)) "http://h" 2).
  - vm_compute. reflexivity.
  - vm_compute. split; discriminate.
Defined.

(** X18.  After a cycle of index.js that aborted on an empty fetch, the
    metadata endpoint answers 404 to every request, also for ranks it served
    before and for token ids that do not parse. *)
Theorem Index_metadata_after_abort (assets : string -> bool)
    (collections : list Collection) (st st' : Index.State)
    (origin : string) (tokenId : option Z) :
  Index.updateRankings assets collections st = Aborted st' ->
  Index_metadata origin tokenId st' = NotFound.
Proof.
  unfold Index.updateRankings. destruct (length collections =? 0)%nat; [|discriminate].
  intros [= <-]. unfold Index_metadata. simpl. by rewrite orb_true_r.
Qed.

Lemma Index_metadata_after_abort_witness :
  Index_metadata "http://h" (Some 1)
    (final (Index.updateRankings all_assets [] Index_cached)) = NotFound.
Proof.
  apply (Index_metadata_after_abort all_assets [] Index_cached _ "http://h" (Some 1)).
  reflexivity.
Defined.

(** X19.  index.js serves metadata for a record it passed over: for a record
    without identity at a rank whose image file does not exist yet, the
    completed cycle leaves the file missing while the endpoint answers with a
    JSON body that points to it. *)
Theorem Index_metadata_without_image (assets : string -> bool)
    (collections : list Collection) (st st' : Index.State)
    (origin : string) (i : nat) (c : Collection) :
  Index.updateRankings assets collections st = Completed st' ->
  collections !! i = Some c -> ~ identified c ->
  Index.images st !! (Z.of_nat i + 1) = None ->
  Index.images st' !! (Z.of_nat i + 1) = None /\
  exists body,
    Index_metadata origin (Some (Z.of_nat i + 1)) st' = Json body /\
    md_image body
    = origin +:+ "/images/token" +:+ pretty (Z.of_nat i + 1) +:+ ".png".
Proof.
  intros Hrun Hc Hnid Hnone. apply Index_completed_inv in Hrun as [_ ->]. split.
  - simpl. rewrite Index_loop_image_at. unfold Index_image_at.
    case_decide; [|done].
    replace (Z.to_nat (Z.of_nat i + 1 - 1)) with i by lia. rewrite Hc.
    unfold identified in Hnid. by destruct (falsy_str (id c)).
  - pose proof (lookup_lt_Some _ _ _ Hc) as Hi.
    unfold Index_metadata, js_lt, js_gt, js_index, option_map. simpl.
    destruct (Z.ltb_spec (Z.of_nat i + 1) 1); [lia|].
    destruct (Z.ltb_spec (Z.of_nat (length collections)) (Z.of_nat i + 1)); [lia|].
    destruct (Nat.eqb_spec (length collections) 0); [lia|]. simpl.
    destruct (Z.ltb_spec (Z.of_nat i + 1 - 1) 0); [lia|].
    replace (Z.to_nat (Z.of_nat i + 1 - 1)) with i by lia. rewrite Hc.
    by eexists.
Qed.

Lemma Index_metadata_without_image_witness :
  Index.images (final (Index.updateRankings all_assets [nameless] Index_fresh))
    !! (Z.of_nat 0 + 1) = None /\
  exists body,
    Index_metadata "http://h" (Some (Z.of_nat 0 + 1))
      (final (Index.updateRankings all_assets [nameless] Index_fresh)) = Json body /\
    md_image body
    = "http://h" +:+ "/images/token" +:+ pretty (Z.of_nat 0 + 1) +:+ ".png".
Proof.
  apply (Index_metadata_without_image all_assets [nameless] Index_fresh
           (final (Index.updateRankings all_assets [nameless] Index_fresh))
           "http://h" 0 nameless).
  - vm_compute. reflexivity.
  - reflexivity.
  - unfold identified. discriminate.
  - reflexivity.
Defined.

(** ** Snapshots and their use as a reference *)

Lemma snapshotRankings_snoc (collections : list Collection) (c : Collection) :
  Check24.snapshotRankings (collections ++ [c])
  = js_set (prop_key (id c)) (Z.of_nat (length collections) + 1)
      (Check24.snapshotRankings collections).
Proof.
  unfold Check24.snapshotRankings. rewrite imap_app, foldl_app. simpl.
  by rewrite Nat.add_0_r.
Qed.

Lemma snapshotRankings_sound (collections : list Collection) (k : string) (r : Z) :
  Check24.snapshotRankings collections !! k = Some r ->
  exists i c, collections !! i = Some c /\ prop_key (id c) = k /\
              r = Z.of_nat i + 1 /\ k <> "__proto__".
Proof.
  induction collections as [|c collections IH] using rev_ind.
  - unfold Check24.snapshotRankings. simpl. by rewrite lookup_empty.
  - rewrite snapshotRankings_snoc. intros Hr.
    apply lookup_js_set_Some in Hr as [(<- & Hp & ->)|Hr].
    + exists (length collections), c.
      split; [|done]. by rewrite lookup_app_r, Nat.sub_diag.
    + destruct (IH Hr) as (i & c' & Hc' & ? & ?).
      exists i, c'. split; [|done]. by apply lookup_app_l_Some.
Qed.

Lemma snapshotRankings_last (collections : list Collection) (i : nat) (c : Collection) :
  collections !! i = Some c ->
  prop_key (id c) <> "__proto__" ->
  (forall j c', (i < j)%nat -> collections !! j = Some c' ->
     prop_key (id c') <> prop_key (id c)) ->
  Check24.snapshotRankings collections !! prop_key (id c) = Some (Z.of_nat i + 1).
Proof.
  induction collections as [|c0 collections IH] using rev_ind; [done|].
  intros Hc Hproto Hlast. rewrite snapshotRankings_snoc.
  destruct (decide (i = length collections)) as [->|Hne].
  - rewrite lookup_app_r, Nat.sub_diag in Hc by done. injection Hc as ->.
    by rewrite lookup_js_set_eq.
  - pose proof (lookup_lt_Some _ _ _ Hc) as Hi. rewrite length_app in Hi. simpl in Hi.
    rewrite lookup_app_l in Hc by lia.
    rewrite lookup_js_set_ne.
    + apply IH; [done | done |]. intros j c' Hj Hc'. apply (Hlast j c' Hj).
      by apply lookup_app_l_Some.
    + apply (Hlast (length collections) c0); [lia|].
      by rewrite lookup_app_r, Nat.sub_diag.
Qed.

(** X20.  The rankings of a new snapshot hold, for every key other than
    [__proto__], the position plus one of the last record of the fetched list
    with that key, and nothing else; records without identity all fall under
    the key "undefined"; nothing is ever held under [__proto__], an
    assignment to which stores nothing. *)
Theorem snapshotRankings_positions (collections : list Collection) :
  (forall k r, Check24.snapshotRankings collections !! k = Some r ->
     1 <= r <= Z.of_nat (length collections) /\
     exists c, collections !! Z.to_nat (r - 1) = Some c /\ prop_key (id c) = k) /\
  (forall i c, collections !! i = Some c ->
     prop_key (id c) <> "__proto__" ->
     (forall j c', (i < j)%nat -> collections !! j = Some c' ->
        prop_key (id c') <> prop_key (id c)) ->
     Check24.snapshotRankings collections !! prop_key (id c) = Some (Z.of_nat i + 1)) /\
  (forall i c, collections !! i = Some c -> id c = None ->
     exists r, Check24.snapshotRankings collections !! "undefined" = Some r /\
               Z.of_nat i + 1 <= r) /\
  Check24.snapshotRankings collections !! "__proto__" = None.
Proof.
  split; [|split; [|split]].
  - intros k r Hr. apply snapshotRankings_sound in Hr as (i & c & Hc & Hk & -> & _).
    pose proof (lookup_lt_Some _ _ _ Hc). split; [lia|].
    exists c. by replace (Z.to_nat (Z.of_nat i + 1 - 1)) with i by lia.
  - apply snapshotRankings_last.
  - induction collections as [|c0 collections IH] using rev_ind; [done|].
    intros i c Hc Hid. rewrite snapshotRankings_snoc.
    destruct (decide (i = length collections)) as [->|Hne].
    + rewrite lookup_app_r, Nat.sub_diag in Hc by done. injection Hc as ->.
      rewrite Hid. simpl. rewrite lookup_js_set_eq by done.
      eexists. split; [done | lia].
    + pose proof (lookup_lt_Some _ _ _ Hc) as Hi. rewrite length_app in Hi. simpl in Hi.
      rewrite lookup_app_l in Hc by lia.
      destruct (decide (prop_key (id c0) = "undefined")) as [->|Hk].
      * rewrite lookup_js_set_eq by done. eexists. split; [done | lia].
      * rewrite lookup_js_set_ne by done. by apply (IH i c).
  - destruct (Check24.snapshotRankings collections !! "__proto__") as [r|] eqn:Hr;
      [|done].
    by apply snapshotRankings_sound in Hr as (_ & _ & _ & _ & _ & ?).
Qed.

(** The snapshot of a list whose first record is named [__proto__]: the
    record leaves no entry, the second one does. *)
Lemma snapshotRankings_proto :
  Check24.snapshotRankings [mkCollection (Some "__proto__") None None None; sample 1]
  = <["c1" := 2]> ∅.
Proof. vm_compute. reflexivity. Qed.

Lemma getPreviousRankings_cons (targetTime : Z) (first : Snapshot)
    (rest : list Snapshot) :
  exists (i : nat) (chosen : Snapshot),
    first_nearest targetTime (first :: rest) i chosen /\
    Check24.getPreviousRankings (first :: rest) targetTime
    = if dist targetTime chosen <=? 3600 then Some (rankings chosen) else None.
Proof.
  destruct (scan_first_nearest targetTime rest [first] 0 first
              (first_nearest_singleton targetTime first)) as (i & b & Hb & Hfold).
  exists i, b. split; [exact Hb|].
  unfold Check24.getPreviousRankings.
  change (foldl (Check24.scan targetTime)
            (first, Z.abs (timestamp first - targetTime)) (first :: rest))
    with (foldl (Check24.scan targetTime)
            (Check24.scan targetTime (first, dist targetTime first) first) rest).
  rewrite scan_self, Hfold. reflexivity.
Qed.

Lemma getPreviousRankings_Some (history : list Snapshot) (targetTime : Z)
    (reference : gmap string Z) :
  Check24.getPreviousRankings history targetTime = Some reference ->
  exists s, s ∈ history /\ rankings s = reference /\ dist targetTime s <= 3600.
Proof.
  destruct history as [|first rest]; [discriminate|].
  destruct (getPreviousRankings_cons targetTime first rest)
    as (i & b & (Hi & _) & ->).
  destruct (Z.leb_spec (dist targetTime b) 3600); [|discriminate].
  intros [= <-]. exists b. split; [|done]. apply list_elem_of_lookup. eauto.
Qed.

Lemma getPreviousRankings_near (history : list Snapshot) (targetTime : Z)
    (s : Snapshot) :
  s ∈ history -> dist targetTime s <= 3600 ->
  is_Some (Check24.getPreviousRankings history targetTime).
Proof.
  intros Hs Hnear. destruct history as [|first rest]; [by apply elem_of_nil in Hs|].
  destruct (getPreviousRankings_cons targetTime first rest)
    as (i & b & (_ & Hmin & _) & ->).
  specialize (Hmin s Hs).
  destruct (Z.leb_spec (dist targetTime b) 3600); [by eexists | lia].
Qed.

(** X21.  The lookup finds a reference exactly when some snapshot of the
    history lies within 3600 seconds of the target time, and the rankings it
    returns are those of such a snapshot. *)
Theorem getPreviousRankings_found_iff (history : list Snapshot) (targetTime : Z) :
  (is_Some (Check24.getPreviousRankings history targetTime) <->
   exists s, s ∈ history /\ Z.abs (timestamp s - targetTime) <= 3600) /\
  (forall reference,
     Check24.getPreviousRankings history targetTime = Some reference ->
     exists s, s ∈ history /\ rankings s = reference /\
               Z.abs (timestamp s - targetTime) <= 3600).
Proof.
  split; [split|].
  - intros [reference Href]. apply getPreviousRankings_Some in Href as (s & ? & _ & ?).
    by exists s.
  - intros (s & Hs & Hnear). by apply (getPreviousRankings_near history targetTime s).
  - intros reference Href. by apply getPreviousRankings_Some.
Qed.

Lemma Check24_completed_inv (assets : string -> bool) (now : Z)
    (collections : list Collection) (st st' : Check24.State) :
  Check24.updateRankings assets now collections st = Completed st' ->
  exists dir,
    for_range
      (Check24.body assets
         (Check24.getPreviousRankings (load_array (Check24.history_file st))
            (now - 24 * 3600)) collections) 0 100 (Check24.images st) = Next dir /\
    st' = Check24.mkState
            (Some (Check24.prune (load_array (Check24.history_file st)) now
                   ++ [mkSnapshot now (Check24.snapshotRankings collections)])) dir.
Proof.
  unfold Check24.updateRankings.
  destruct (length collections =? 0)%nat; [discriminate|].
  destruct (for_range _ _ _ _) as [dir|dir] eqn:Hloop; [|discriminate].
  intros [= <-]. exists dir. split; [done|]. f_equal. f_equal.
  rewrite prune_app, prune_cons. simpl. case_decide; [reflexivity | lia].
Qed.

(** X22.  A completed cycle of 24hr_check.js provides the reference of the
    cycles that run a day later: for every later clock reading within an hour
    of 24 hours after it, the lookup in the history it persisted finds a
    reference, taken from a snapshot within an hour of the target. *)
Theorem Check24_next_day_reference (assets : string -> bool) (now : Z)
    (collections : list Collection) (st st' : Check24.State) (later : Z) :
  Check24.updateRankings assets now collections st = Completed st' ->
  Z.abs (later - 24 * 3600 - now) <= 3600 ->
  exists reference s,
    Check24.getPreviousRankings (load_array (Check24.history_file st'))
      (later - 24 * 3600) = Some reference /\
    s ∈ load_array (Check24.history_file st') /\
    rankings s = reference /\
    Z.abs (timestamp s - (later - 24 * 3600)) <= 3600.
Proof.
  intros Hrun Hnear. apply Check24_completed_inv in Hrun as (dir & _ & ->). simpl.
  set (new := mkSnapshot now (Check24.snapshotRankings collections)).
  set (history := Check24.prune _ _ ++ [new]).
  destruct (getPreviousRankings_near history (later - 24 * 3600) new)
    as [reference Href].
  - subst history. apply elem_of_app. right. by apply list_elem_of_singleton.
  - unfold dist. simpl. lia.
  - exists reference. apply getPreviousRankings_Some in Href as Hs.
    destruct Hs as (s & ? & ? & ?). by exists s.
Qed.

Lemma Check24_next_day_reference_witness :
  exists reference s,
    Check24.getPreviousRankings
      (load_array (Check24.history_file
         (final (Check24.updateRankings all_assets noon (top 100) Check24_fresh))))
      (noon + 24 * 3600 + 300 - 24 * 3600) = Some reference /\
    s ∈ load_array (Check24.history_file
          (final (Check24.updateRankings all_assets noon (top 100) Check24_fresh))) /\
    rankings s = reference /\
    Z.abs (timestamp s - (noon + 24 * 3600 + 300 - 24 * 3600)) <= 3600.
Proof.
  apply (Check24_next_day_reference all_assets noon (top 100) Check24_fresh
           (final (Check24.updateRankings all_assets noon (top 100) Check24_fresh))
           (noon + 24 * 3600 + 300)).
  - vm_compute. reflexivity.
  - vm_compute. discriminate.
Defined.

(** X23.  While every snapshot of the history is less than 23 hours old, a
    completed cycle of 24hr_check.js finds no reference: every one of the
    hundred images is drawn in orange, whatever the ranks were before. *)
Theorem Check24_young_history_orange (assets : string -> bool) (now : Z)
    (collections : list Collection) (st st' : Check24.State) :
  (forall s, s ∈ load_array (Check24.history_file st) ->
     now - 23 * 3600 < timestamp s) ->
  Check24.updateRankings assets now collections st = Completed st' ->
  Check24.getPreviousRankings (load_array (Check24.history_file st)) (now - 24 * 3600)
  = None /\
  forall t, 1 <= t <= 100 ->
    exists image, Check24.images st' !! t = Some image /\ img_color image = "orange".
Proof.
  intros Hyoung Hrun.
  assert (Check24.getPreviousRankings (load_array (Check24.history_file st))
            (now - 24 * 3600) = None) as Hnone.
  { destruct (Check24.getPreviousRankings _ _) as [reference|] eqn:Href; [|done].
    apply getPreviousRankings_Some in Href as (s & Hs & _ & Hnear).
    specialize (Hyoung s Hs). unfold dist in Hnear. lia. }
  split; [done|]. apply Check24_completed_inv in Hrun as (dir & Hloop & ->).
  rewrite Hnone in Hloop. apply Check24_loop_images in Hloop as [Hin _].
  intros t Ht. destruct (Hin (Z.to_nat (t - 1))) as (c & image & _ & Himg & _ & Hcol);
    [lia|].
  replace (Z.of_nat (Z.to_nat (t - 1)) + 1) with t in * by lia.
  exists image. split; [done|]. by rewrite Hcol.
Qed.

Lemma Check24_young_history_orange_witness :
  Check24.getPreviousRankings
    (load_array (Check24.history_file
       (final (Check24.updateRankings all_assets noon (top 100) Check24_fresh))))
    (noon + 300 - 24 * 3600) = None /\
  forall t, 1 <= t <= 100 ->
    exists image,
      Check24.images
        (final (Check24.updateRankings all_assets (noon + 300) (top 100)
                  (final (Check24.updateRankings all_assets noon (top 100)
                            Check24_fresh)))) !! t = Some image /\
      img_color image = "orange".
Proof.
  apply (Check24_young_history_orange all_assets (noon + 300) (top 100)
           (final (Check24.updateRankings all_assets noon (top 100) Check24_fresh))).
  - intros s Hs.
    assert (load_array (Check24.history_file
              (final (Check24.updateRankings all_assets noon (top 100) Check24_fresh)))
            = [mkSnapshot noon (Check24.snapshotRankings (top 100))]) as Hh
      by (vm_compute; reflexivity).
    rewrite Hh in Hs. apply list_elem_of_singleton in Hs as ->. simpl.
    unfold noon. lia.
  - vm_compute. reflexivity.
Defined.

(** X24.  Against the rankings of a snapshot taken from an earlier list, a
    collection whose key, other than [__proto__], was last seen at position
    [i] of that list is classified up, down or same exactly as its current
    rank is below, above or equal to [i + 1]. *)
Theorem Check24_movement_against_snapshot (earlier : list Collection) (i : nat)
    (before now_ : Collection) (currentRank : Z) :
  earlier !! i = Some before ->
  prop_key (id before) <> "__proto__" ->
  (forall j c', (i < j)%nat -> earlier !! j = Some c' ->
     prop_key (id c') <> prop_key (id before)) ->
  prop_key (id now_) = prop_key (id before) ->
  (Check24.movementSince (Some (Check24.snapshotRankings earlier)) currentRank now_ = up
   <-> currentRank < Z.of_nat i + 1) /\
  (Check24.movementSince (Some (Check24.snapshotRankings earlier)) currentRank now_ = down
   <-> currentRank > Z.of_nat i + 1) /\
  (Check24.movementSince (Some (Check24.snapshotRankings earlier)) currentRank now_ = same
   <-> currentRank = Z.of_nat i + 1).
Proof.
  intros Hc Hproto Hlast Hkey. unfold Check24.movementSince, movementAgainst.
  rewrite Hkey.
  rewrite (proj2 (js_get_Own _ _ _)
             (snapshotRankings_last earlier i before Hc Hproto Hlast)).
  unfold rankMovement. simpl.
  destruct (Z.eqb_spec (Z.of_nat i + 1) 0); [lia|].
  destruct (Z.ltb_spec currentRank (Z.of_nat i + 1));
    [repeat split; first [done | lia]|].
  destruct (Z.ltb_spec (Z.of_nat i + 1) currentRank);
    repeat split; first [done | lia].
Qed.

Lemma Check24_movement_against_snapshot_witness :
  (Check24.movementSince
     (Some (Check24.snapshotRankings (abc ++ constructor_first))) 1
     (mkCollection (Some "constructor") (Some "C") None None) = up
   <-> 1 < Z.of_nat 3 + 1) /\
  (Check24.movementSince
     (Some (Check24.snapshotRankings (abc ++ constructor_first))) 1
     (mkCollection (Some "constructor") (Some "C") None None) = down
   <-> 1 > Z.of_nat 3 + 1) /\
  (Check24.movementSince
     (Some (Check24.snapshotRankings (abc ++ constructor_first))) 1
     (mkCollection (Some "constructor") (Some "C") None None) = same
   <-> 1 = Z.of_nat 3 + 1).
Proof.
  apply (Check24_movement_against_snapshot (abc ++ constructor_first) 3
           (mkCollection (Some "constructor") None None None)).
  - reflexivity.
  - discriminate.
  - intros j c' Hj Hc'.
    destruct j as [|[|[|[|[|j]]]]]; try lia; [|by apply lookup_lt_Some in Hc'; simpl in Hc'; lia].
    injection Hc' as <-. discriminate.
  - reflexivity.
Defined.

(** ** Pruning over time *)

(** X25.  Pruning composes over time: pruning at one clock reading and then
    at a later one leaves what pruning at the later one alone leaves; in
    particular pruning twice at the same reading changes nothing more. *)
Theorem prune_later (history : list Snapshot) (now later : Z) :
  now <= later ->
  Check24.prune (Check24.prune history now) later = Check24.prune history later /\
  Check24.prune (Check24.prune history now) now = Check24.prune history now.
Proof.
  intros Hle.
  assert (forall t, now <= t ->
            Check24.prune (Check24.prune history now) t = Check24.prune history t) as H.
  { intros t Ht. induction history as [|s history IH]; [reflexivity|].
    rewrite !prune_cons. repeat case_decide; rewrite ?prune_cons;
      repeat case_decide; first [lia | by rewrite IH]. }
  split; [by apply H | apply H; lia].
Qed.

Lemma prune_later_witness :
  Check24.prune (Check24.prune [mkSnapshot 10 ∅; mkSnapshot 50000 ∅; mkSnapshot 95000 ∅]
                   95000) 150000
  = Check24.prune [mkSnapshot 10 ∅; mkSnapshot 50000 ∅; mkSnapshot 95000 ∅] 150000 /\
  Check24.prune (Check24.prune [mkSnapshot 10 ∅; mkSnapshot 50000 ∅; mkSnapshot 95000 ∅]
                   95000) 95000
  = Check24.prune [mkSnapshot 10 ∅; mkSnapshot 50000 ∅; mkSnapshot 95000 ∅] 95000.
Proof.
  apply (prune_later [mkSnapshot 10 ∅; mkSnapshot 50000 ∅; mkSnapshot 95000 ∅]
           95000 150000).
  lia.
Defined.

Lemma chronological_prune (history : list Snapshot) (now : Z) :
  chronological history -> chronological (Check24.prune history now).
Proof.
  unfold chronological. induction history as [|s history IH]; [done|].
  rewrite StronglySorted_cons. intros [Hall Hsorted].
  rewrite prune_cons. case_decide; [|by apply IH].
  apply StronglySorted_cons. split; [|by apply IH].
  apply Forall_forall. intros x Hx. apply elem_of_prune in Hx as [Hx _].
  by apply (proj1 (Forall_forall _ _) Hall).
Qed.

(** X26.  A completed cycle of 24hr_check.js keeps the history in
    chronological order, provided the clock has not gone back behind a
    snapshot already stored; and it adds at most one snapshot to it. *)
Theorem Check24_history_chronological (assets : string -> bool) (now : Z)
    (collections : list Collection) (st st' : Check24.State) :
  chronological (load_array (Check24.history_file st)) ->
  (forall s, s ∈ load_array (Check24.history_file st) -> timestamp s <= now) ->
  Check24.updateRankings assets now collections st = Completed st' ->
  chronological (load_array (Check24.history_file st')) /\
  (length (load_array (Check24.history_file st'))
   <= S (length (load_array (Check24.history_file st))))%nat.
Proof.
  intros Hsorted Hpast Hrun. apply Check24_completed_inv in Hrun as (dir & _ & ->).
  simpl. split.
  - apply StronglySorted_app_2.
    + intros x1 x2 H1 H2. apply list_elem_of_singleton in H2 as ->. simpl.
      apply elem_of_prune in H1 as [H1 _]. by apply Hpast.
    + by apply chronological_prune.
    + repeat constructor.
  - rewrite length_app. simpl.
    pose proof (length_filter (fun s => now - 25 * 3600 <= timestamp s)
                  (load_array (Check24.history_file st))) as Hlen.
    unfold Check24.prune. simpl. lia.
Qed.

Lemma Check24_history_chronological_witness :
  chronological
    (load_array (Check24.history_file
       (final (Check24.updateRankings all_assets noon (top 100) three_snapshots)))) /\
  (length (load_array (Check24.history_file
             (final (Check24.updateRankings all_assets noon (top 100) three_snapshots))))
   <= S (length (load_array (Check24.history_file three_snapshots))))%nat.
Proof.
  apply (Check24_history_chronological all_assets noon (top 100) three_snapshots).
  - unfold chronological, three_snapshots, load_array, Check24.history_file.
    repeat (apply SSorted_cons || apply SSorted_nil || apply Forall_cons_2
            || apply Forall_nil_2); simpl; lia.
  - intros s Hs. unfold three_snapshots, load_array, Check24.history_file in Hs.
    rewrite !elem_of_cons in Hs.
    destruct Hs as [-> | [-> | [-> | Hs]]]; [simpl; lia .. |].
    by apply elem_of_nil in Hs.
  - vm_compute. reflexivity.
Defined.

(** The cycle of that witness drops the oldest of the three stored snapshots
    and appends its own after the two it keeps. *)
Lemma Check24_history_example :
  timestamp <$> load_array (Check24.history_file
    (final (Check24.updateRankings all_assets noon (top 100) three_snapshots)))
  = [noon - 3600; noon - 300; noon].
Proof. vm_compute. reflexivity. Qed.

(** ** Crashes in the middle of a cycle *)

Lemma for_range_app {A : Type} (body : nat -> A -> Step A) (k1 k2 start : nat) (a : A) :
  for_range body start (k1 + k2) a
  = match for_range body start k1 a with
    | Next a' => for_range body (start + k1) k2 a'
    | Throw a' => Throw a'
    end.
Proof.
  revert start a. induction k1 as [|k1 IH]; intros start a.
  - simpl. by rewrite Nat.add_0_r.
  - simpl. destruct (body start a) as [a1|a1]; [|reflexivity].
    rewrite IH. by replace (S start + k1)%nat with (start + S k1)%nat by lia.
Qed.

(** A loop to a hundred over a shorter list runs through the list and throws
    at the first position past its end. *)
Lemma for_range_short {A : Type} (body : nat -> A -> Step A) (n : nat) (a : A) :
  (n < 100)%nat ->
  (forall i a0, (i < n)%nat -> exists a1, body i a0 = Next a1) ->
  (forall a0, body n a0 = Throw a0) ->
  exists a', for_range body 0 n a = Next a' /\ for_range body 0 100 a = Throw a'.
Proof.
  intros Hn Hok Hthrow.
  destruct (for_range_runs body n 0 a) as [a' Ha'].
  { intros i a0 Hi. apply Hok. lia. }
  exists a'. split; [done|].
  replace 100%nat with (n + S (99 - n))%nat by lia.
  rewrite for_range_app, Ha'. simpl. by rewrite Hthrow.
Qed.

(** X27.  A cycle of working_redGreen.js over fewer than a hundred
    collections is not all-or-nothing: with every asset in place, and no
    record keyed by the name of a member every object inherits, it crashes
    after having overwritten the image of every rank up to the length of the
    list, while both persisted dictionaries and the images of higher ranks
    stay as they were. *)
Theorem RedGreen_crash_overwrites_images (assets : string -> bool)
    (collections : list Collection) (st : RedGreen.State) :
  (1 <= length collections < 100)%nat ->
  (forall color, assets color = true) ->
  (forall c, c ∈ collections -> inherited (prop_key (id c)) = false) ->
  exists st',
    RedGreen.updateRankings assets collections st = Crashed st' /\
    RedGreen.rankings_file st' = RedGreen.rankings_file st /\
    RedGreen.colors_file st' = RedGreen.colors_file st /\
    (forall i c, collections !! i = Some c ->
       exists image,
         RedGreen.images st' !! (Z.of_nat i + 1) = Some image /\
         img_rank image = Z.of_nat i + 1) /\
    (forall t, Z.of_nat (length collections) < t ->
       RedGreen.images st' !! t = RedGreen.images st !! t).
Proof.
  intros Hlen Hassets Hord. unfold RedGreen.updateRankings.
  destruct (Nat.eqb_spec (length collections) 0); [lia|].
  match goal with
  | |- context [for_range ?b 0 100 ?a] =>
      destruct (for_range_short b (length collections) a) as (a' & Hfirst & ->);
        [lia | | |]
  end.
  - intros i a0 Hi. unfold RedGreen.body, generateImage. cbv zeta.
    destruct (lookup_lt_is_Some_2 collections i Hi) as [c Hc]. rewrite Hc.
    assert (c ∈ collections) as Hin by (apply list_elem_of_lookup; eauto).
    destruct (Index_color_ordinary (load_object (RedGreen.rankings_file st))
                (load_object (RedGreen.colors_file st)) i c (Hord c Hin))
      as [color Hcolor].
    unfold Index_color in Hcolor. rewrite Hcolor, Hassets. by eexists.
  - intros a0. unfold RedGreen.body. by rewrite lookup_ge_None_2.
  - eexists. split; [reflexivity|]. simpl. split; [done|]. split; [done|].
    apply RedGreen_loop_inv in Hfirst as (Hin & Hout & _). simpl in Hout. split.
    + intros i c Hc. destruct (Hin i) as (c' & image & _ & Himg & Hrank & _).
      { apply lookup_lt_Some in Hc. lia. }
      by exists image.
    + intros t Ht. apply Hout. lia.
Qed.

Lemma RedGreen_crash_overwrites_images_witness :
  exists st',
    RedGreen.updateRankings all_assets abc RedGreen_fresh = Crashed st' /\
    RedGreen.rankings_file st' = RedGreen.rankings_file RedGreen_fresh /\
    RedGreen.colors_file st' = RedGreen.colors_file RedGreen_fresh /\
    (forall i c, abc !! i = Some c ->
       exists image,
         RedGreen.images st' !! (Z.of_nat i + 1) = Some image /\
         img_rank image = Z.of_nat i + 1) /\
    (forall t, Z.of_nat (length abc) < t ->
       RedGreen.images st' !! t = RedGreen.images RedGreen_fresh !! t).
Proof.
  apply (RedGreen_crash_overwrites_images all_assets abc RedGreen_fresh).
  - simpl. lia.
  - reflexivity.
  - intros c Hc. unfold abc in Hc. rewrite !elem_of_cons in Hc.
    destruct Hc as [-> | [-> | [-> | Hc]]]; [reflexivity .. |].
    by apply elem_of_nil in Hc.
Defined.

(** Without the condition on the keys the cycle can crash before it has drawn
    anything: on a first record named constructor, with no previous files,
    working_redGreen.js reads an inherited function as the previous rank and
    as the colour, and the load of the asset of that colour fails at rank 1;
    index.js, which catches the failed load, goes on and persists the rank
    without a colour and without an image. *)
Lemma inherited_identity_first :
  RedGreen.updateRankings green_and_red constructor_first RedGreen_fresh
  = Crashed RedGreen_fresh /\
  Index.updateRankings green_and_red constructor_first Index_fresh
  = Completed
      (Index.mkState (Some (<["constructor" := 1]> (<["c1" := 2]> ∅)))
         (Some (<["c1" := "green"]> ∅))
         (<[2 := mkImage 2 "Collection 1" dzero dzero "green"]> ∅)
         constructor_first).
Proof. split; vm_compute; reflexivity. Qed.

(** X28.  A cycle of 24hr_check.js over fewer than a hundred collections
    never completes: with every asset in place it crashes after having
    overwritten the image of every rank up to the length of the list, and
    rankings_history.json is left without the new snapshot. *)
Theorem Check24_crash_overwrites_images (assets : string -> bool) (now : Z)
    (collections : list Collection) (st : Check24.State) :
  (1 <= length collections < 100)%nat ->
  (forall color, assets color = true) ->
  exists st',
    Check24.updateRankings assets now collections st = Crashed st' /\
    Check24.history_file st' = Check24.history_file st /\
    (forall i c, collections !! i = Some c ->
       exists image,
         Check24.images st' !! (Z.of_nat i + 1) = Some image /\
         img_rank image = Z.of_nat i + 1) /\
    (forall t, Z.of_nat (length collections) < t ->
       Check24.images st' !! t = Check24.images st !! t).
Proof.
  intros Hlen Hassets. unfold Check24.updateRankings.
  destruct (Nat.eqb_spec (length collections) 0); [lia|].
  match goal with
  | |- context [for_range ?b 0 100 ?a] =>
      destruct (for_range_short b (length collections) a) as (a' & Hfirst & ->);
        [lia | | |]
  end.
  - intros i a0 Hi. unfold Check24.body, generateImage. cbv zeta.
    destruct (lookup_lt_is_Some_2 collections i Hi) as [c ->].
    rewrite Hassets. by eexists.
  - intros a0. unfold Check24.body. by rewrite lookup_ge_None_2.
  - eexists. split; [reflexivity|]. simpl. split; [done|].
    apply Check24_loop_images in Hfirst as (Hin & Hout). split.
    + intros i c Hc. destruct (Hin i) as (c' & image & _ & Himg & Hrank & _).
      { apply lookup_lt_Some in Hc. lia. }
      by exists image.
    + intros t Ht. apply Hout. lia.
Qed.

Lemma Check24_crash_overwrites_images_witness :
  exists st',
    Check24.updateRankings all_assets noon abc Check24_fresh = Crashed st' /\
    Check24.history_file st' = Check24.history_file Check24_fresh /\
    (forall i c, abc !! i = Some c ->
       exists image,
         Check24.images st' !! (Z.of_nat i + 1) = Some image /\
         img_rank image = Z.of_nat i + 1) /\
    (forall t, Z.of_nat (length abc) < t ->
       Check24.images st' !! t = Check24.images Check24_fresh !! t).
Proof.
  apply (Check24_crash_overwrites_images all_assets noon abc Check24_fresh).
  - simpl. lia.
  - reflexivity.
Defined.

(** ** The drawn name *)






(** A name of twenty-five units is drawn as its first twenty, whether the
    units are plain letters or accented ones. *)
Lemma generateImage_long_name :
  img_name <$> generateImage all_assets 1 "abcdefghijklmnopqrstuvwxy" dzero dzero "green"
  = Some "abcdefghijklmnopqrst" /\
  img_name <$> generateImage all_assets 1 (e_acute 25) dzero dzero "green"
  = Some (e_acute 20).
Proof. split; reflexivity. Qed.
